(** * Parameter sanitization of the personality quiz

    A shallow embedding of [sanitizeParameters], [filterAnswers],
    [sanitizeOptionPersonalities], [sanitizePersonalityOption] and
    [isPersonalityNameValid] of the [PersonalityQuiz] class, and the
    properties of them that the specification states.

    JavaScript strings are sequences of UTF-16 code units; the values the
    code inspects dynamically ([!x], [typeof x], [x ?? y]) are primitive
    values; a call that throws a [TypeError] returns [TypeError].
    [String.prototype.toLowerCase] is a parameter of the embedding: the
    Unicode case tables are not embedded, and what a proof needs of
    lower-casing is a hypothesis of its theorem. *)

From Stdlib Require Import List NArith ZArith Bool Lia Ascii String DecimalString.
Import ListNotations.

Local Open Scope bool_scope.
Local Open Scope N_scope.

(** ** Strings *)

Module Js.

(** A string is the list of its UTF-16 code units. *)
Definition jsstring := list N.

(** An ASCII literal as a string. *)
Definition u (s : string) : jsstring := map N_of_ascii (list_ascii_of_string s).

Fixpoint str_eqb (a b : jsstring) : bool :=
  match a, b with
  | [], [] => true
  | x :: a', y :: b' => N.eqb x y && str_eqb a' b'
  | _, _ => false
  end.

(** WhiteSpace and LineTerminator of ECMAScript: what [trim] strips. *)
Definition isWhiteSpace (c : N) : bool :=
  ((9 <=? c) && (c <=? 13)) || (c =? 32) || (c =? 160) || (c =? 5760)
  || ((8192 <=? c) && (c <=? 8202)) || (c =? 8232) || (c =? 8233)
  || (c =? 8239) || (c =? 8287) || (c =? 12288) || (c =? 65279).

Fixpoint trimStart (s : jsstring) : jsstring :=
  match s with
  | [] => []
  | c :: r => if isWhiteSpace c then trimStart r else s
  end.

Definition trimEnd (s : jsstring) : jsstring := rev (trimStart (rev s)).

(** [s.trim()] *)
Definition trim (s : jsstring) : jsstring := trimEnd (trimStart s).

(** Lower-casing of one code unit of the Basic Latin and Latin-1
    Supplement blocks: A-Z, and U+00C0-U+00DE without the multiplication
    sign U+00D7; any other code unit is left as it is. *)
Definition lowerUnit (c : N) : N :=
  if ((65 <=? c) && (c <=? 90))
     || ((192 <=? c) && (c <=? 222) && negb (c =? 215))
  then c + 32 else c.

(** [s.toLowerCase()] for a string [s] of Basic Latin and Latin-1
    code units: the lower-casing that the runs on written-out strings
    use. It is not the lower-casing of the theorems, which is any
    function. *)
Definition lowerLatin1 (s : jsstring) : jsstring := map lowerUnit s.

(** [s.split(sep)] for a separator of one code unit; never empty. *)
Fixpoint split (sep : N) (s : jsstring) : list jsstring :=
  match s with
  | [] => [[]]
  | c :: r =>
      if c =? sep then [] :: split sep r
      else match split sep r with
           | h :: t => (c :: h) :: t
           | [] => [[c]]
           end
  end.

(** [l.join(sep)] *)
Fixpoint join (sep : jsstring) (l : list jsstring) : jsstring :=
  match l with
  | [] => []
  | [x] => x
  | x :: r => x ++ sep ++ join sep r
  end.

Definition comma : N := 44.
Definition minus : N := 45.
Definition equals : N := 61.

(** [\d] *)
Definition isDigit (c : N) : bool := (48 <=? c) && (c <=? 57).

(** [\d+$] against the whole of [s] *)
Definition digits1 (s : jsstring) : bool :=
  match s with
  | [] => false
  | _ => forallb isDigit s
  end.

(** [-?\d+$] against the whole of [s] *)
Definition signedDigits (s : jsstring) : bool :=
  match s with
  | d :: r => ((d =? minus) && digits1 r) || digits1 s
  | [] => false
  end.

(** [=-?\d+$] matched at the first code unit of [s] *)
Definition matchScoreHere (s : jsstring) : bool :=
  match s with
  | c :: r => (c =? equals) && signedDigits r
  | [] => false
  end.

(** [s.match(/=-?\d+$/)]: the pattern is tried at every position, from
    the left; only whether it matches is used. *)
Fixpoint matchScore (s : jsstring) : bool :=
  matchScoreHere s
  || match s with
     | [] => false
     | _ :: r => matchScore r
     end.

(** *** Primitive values *)

(** The values of the text fields of the parameters: [undefined],
    [null], booleans, integral numbers and strings. Arrays and objects
    are no values of the embedding. *)
Inductive JsVal : Type :=
| JsUndefined
| JsNull
| JsBool (b : bool)
| JsNum (n : Z)
| JsStr (s : jsstring).

(** [!v] is false *)
Definition truthy (v : JsVal) : bool :=
  match v with
  | JsUndefined | JsNull => false
  | JsBool b => b
  | JsNum n => negb (n =? 0)%Z
  | JsStr s => negb (str_eqb s [])
  end.

(** [typeof v === 'string'] *)
Definition isString (v : JsVal) : bool :=
  match v with
  | JsStr _ => true
  | _ => false
  end.

(** [a === b] *)
Definition strictEquals (a b : JsVal) : bool :=
  match a, b with
  | JsUndefined, JsUndefined => true
  | JsNull, JsNull => true
  | JsBool x, JsBool y => Bool.eqb x y
  | JsNum x, JsNum y => (x =? y)%Z
  | JsStr x, JsStr y => str_eqb x y
  | _, _ => false
  end.

(** [a ?? b] *)
Definition nullish (a b : JsVal) : JsVal :=
  match a with
  | JsUndefined | JsNull => b
  | _ => a
  end.

(** The string a template literal puts in for [v]. *)
Definition toString (v : JsVal) : jsstring :=
  match v with
  | JsUndefined => u "undefined"
  | JsNull => u "null"
  | JsBool true => u "true"
  | JsBool false => u "false"
  | JsNum n => u (NilEmpty.string_of_int (Z.to_int n))
  | JsStr s => s
  end.

(** *** Calls that can throw *)

Inductive result (A : Type) : Type :=
| Ok (a : A)
| TypeError.

Arguments Ok {A} a.
Arguments TypeError {A}.

Definition bind {A B} (r : result A) (k : A -> result B) : result B :=
  match r with
  | Ok a => k a
  | TypeError => TypeError
  end.

(** [l.map(f)], [f] called on the elements from the left *)
Fixpoint mapM {A B} (f : A -> result B) (l : list A) : result (list B) :=
  match l with
  | [] => Ok []
  | x :: r =>
      bind (f x) (fun y => bind (mapM f r) (fun ys => Ok (y :: ys)))
  end.

(** [l.reduce(f, init)] *)
Fixpoint reduce {A B} (f : B -> A -> result B) (l : list A) (init : B)
  : result B :=
  match l with
  | [] => Ok init
  | x :: r => bind (f init x) (fun acc => reduce f r acc)
  end.

(** [l.some(f)]: stops at the first element [f] holds of *)
Fixpoint some {A} (f : A -> result bool) (l : list A) : result bool :=
  match l with
  | [] => Ok false
  | x :: r => bind (f x) (fun b => if b then Ok true else some f r)
  end.

(** [v.trim()]: a method of strings only *)
Definition callTrim (v : JsVal) : result jsstring :=
  match v with
  | JsStr s => Ok (trim s)
  | _ => TypeError
  end.

(** [v.length === 0], for a [v] that is neither [undefined] nor [null];
    of the primitive values only the empty string has the length 0. *)
Definition lengthIsZero (v : JsVal) : bool :=
  match v with
  | JsStr s => (List.length s =? 0)%nat
  | _ => false
  end.

End Js.

Import Js.

Notation "x <- c1 ;; c2" := (bind c1 (fun x => c2))
  (at level 61, c1 at next level, right associativity).

(** ** The parameters *)

(** A personality record: its [name], and the authored fields the
    sanitizer does not look at (description, image), as one tag. *)
Record Personality : Type := mkPersonality {
  name : JsVal;
  p_rest : nat
}.

(** An answer option: its [text] and its [personality] string. *)
Record Answer : Type := mkAnswer {
  text : JsVal;
  personality : JsVal
}.

(** A question: its [answers], an array of answer options, and the
    fields the sanitizer does not look at, as one tag. *)
Record Question : Type := mkQuestion {
  answers : list Answer;
  q_rest : nat
}.

(** [params] before sanitization: [personalitiesGroup.personalities] and
    [questionsGroup.questions]. *)
Record RawParams : Type := mkRawParams {
  personalitiesGroup : list Personality;
  questionsGroup : list Question
}.

(** [params] after sanitization. *)
Record Params : Type := mkParams {
  personalities : list Personality;
  questions : list Question
}.

(** U+3164, HANGUL FILLER *)
Definition placeholder : jsstring := [12644%N].

(** ** The results of the XR variant *)

Section Results.

(** The values a results object holds. *)
Variable V : Type.

(** An object: its own properties, a property name at most once. *)
Definition object : Type := list (string * V).

(** [o[k]]; [None] is [undefined] *)
Fixpoint getProp (o : object) (k : string) : option V :=
  match o with
  | [] => None
  | (k', v) :: r => if String.eqb k' k then Some v else getProp r k
  end.

(** [o[k] = v]: the value of a property that is there is replaced, a
    property that is not there is added. *)
Fixpoint setProp (o : object) (k : string) (v : V) : object :=
  match o with
  | [] => [(k, v)]
  | (k', v') :: r =>
      if String.eqb k' k then (k', v) :: r else (k', v') :: setProp r k v
  end.

(** [{ ...target, ...source }]: the properties of [source] are set on
    [target] one after the other. The list keeps the order in which
    the properties are set, which is not the order JavaScript lists
    integer-like names in; [getProp] does not depend on the order. *)
Definition spread (target source : object) : object :=
  fold_left (fun o kv => setProp o (fst kv) (snd kv)) source target.

(** [extras.metadata], with its [title]. *)
Record Metadata : Type := mkMetadata {
  title : V
}.

(** [extras]; a [metadata] that is [None] is missing. *)
Record Extras : Type := mkExtras {
  metadata : option Metadata
}.

(** [getResults()] of [PersonalityQuizXR]; [contentResults] is the value
    of [this.content?.getResults()], [None] for [undefined]. *)
Definition getResults (extras : Extras) (contentResults : option object)
  : result object :=
  match metadata extras with
  | None => TypeError
  | Some m =>
      Ok (spread [("title"%string, title m)]
            (match contentResults with
             | Some o => o
             | None => []
             end))
  end.

End Results.

Arguments getProp {V} o k.
Arguments setProp {V} o k v.
Arguments spread {V} target source.
Arguments title {V} m.
Arguments metadata {V} e.
Arguments mkMetadata {V} title.
Arguments mkExtras {V} metadata.
Arguments getResults {V} extras contentResults.

(** ** Authored parameters to run on *)

Definition brave : list Personality := [mkPersonality (JsStr (u "brave")) 0].

Definition authored : list Personality :=
  [mkPersonality (JsStr (u " Brave ")) 0; mkPersonality (JsStr (u "")) 1;
   mkPersonality JsUndefined 2; mkPersonality (JsStr (u "Brave")) 3;
   mkPersonality (JsStr (u "brave")) 4].

Definition quiz : RawParams :=
  {| personalitiesGroup := brave;
     questionsGroup :=
       [ {| answers := [mkAnswer (JsStr (u "Run")) (JsStr (u "kind=2"));
                        mkAnswer (JsStr (u "Hide")) JsUndefined];
            q_rest := 0 |};
         {| answers := [mkAnswer (JsStr (u "Fight")) (JsStr (u "Brave=2,x"));
                        mkAnswer (JsStr (u "Flee")) (JsStr (u "kind"));
                        mkAnswer JsUndefined (JsStr (u "brave"))];
            q_rest := 1 |} ] |}.

(** ** Tactics *)

(** Deciding the comparisons of a boolean expression over code units. *)
Ltac units :=
  repeat match goal with
    | |- context [N.leb ?a ?b] => destruct (N.leb_spec a b); try lia
    | |- context [N.eqb ?a ?b] => destruct (N.eqb_spec a b); try lia
    | H : context [N.leb ?a ?b] |- _ => destruct (N.leb_spec a b); try lia
    | H : context [N.eqb ?a ?b] |- _ => destruct (N.eqb_spec a b); try lia
    end;
  simpl in *; try congruence; try lia.

(** ** The sanitizer *)

Section Sanitizer.

(** [String.prototype.toLowerCase], of the platform. *)
Variable toLowerCase : jsstring -> jsstring.

(** [v.toLowerCase()]: a method of strings only *)
Definition callToLowerCase (v : JsVal) : result jsstring :=
  match v with
  | JsStr s => Ok (toLowerCase s)
  | _ => TypeError
  end.

(** [isPersonalityNameValid(value)], over [this.params.personalities] *)
Definition isPersonalityNameValid (ps : list Personality) (value : jsstring)
  : result bool :=
  some (fun p => l <- callToLowerCase (name p) ;; Ok (str_eqb l value)) ps.

(** The first half of [sanitizePersonalityOption]: [name] and [score]
    as they are before the name is trimmed and lower-cased. *)
Definition splitPersonalityOption (value : jsstring) : jsstring * JsVal :=
  if matchScore value then
    let segments := split equals value in
    let score := last segments [] in
    let segments := removelast segments in
    (join [equals] segments, JsStr score)
  else
    (value, JsNum 1).

(** [sanitizePersonalityOption(value)]; [None] is [null] *)
Definition sanitizePersonalityOption (ps : list Personality) (value : jsstring)
  : result (option jsstring) :=
  let '(name, score) := splitPersonalityOption value in
  let name := toLowerCase (trim name) in
  valid <- isPersonalityNameValid ps name ;;
  if negb valid then Ok None
  else Ok (Some (name ++ [equals] ++ toString score)).

(** [.filter((personality) => personality !== null)] *)
Fixpoint dropNull (l : list (option jsstring)) : list jsstring :=
  match l with
  | [] => []
  | Some s :: r => s :: dropNull r
  | None :: r => dropNull r
  end.

(** [sanitizeOptionPersonalities(personalities)] *)
Definition sanitizeOptionPersonalities (ps : list Personality) (v : JsVal)
  : result jsstring :=
  match v with
  | JsStr s =>
      l <- mapM (sanitizePersonalityOption ps) (split comma s) ;;
      Ok (join [comma] (dropNull l))
  | _ => Ok []
  end.

(** [filterAnswers(answers)] *)
Definition filterAnswers (ps : list Personality) (l : list Answer)
  : result (list Answer) :=
  l' <- mapM (fun answer =>
                s <- sanitizeOptionPersonalities ps (personality answer) ;;
                Ok {| text := text answer; personality := JsStr s |}) l ;;
  Ok (filter (fun answer => negb (strictEquals (personality answer) (JsStr [])))
        l').

(** [results.some((result) => result.name === personality.name)] *)
Definition known (results : list Personality) (p : Personality) : bool :=
  existsb (fun result => strictEquals (name result) (name p)) results.

(** The callback of the [reduce] over the authored personalities. *)
Definition addPersonality (results : list Personality) (p : Personality)
  : result (list Personality) :=
  if negb (truthy (name p)) || lengthIsZero (name p) then Ok results
  else
    n <- callTrim (name p) ;;
    let p := {| name := JsStr n; p_rest := p_rest p |} in
    if known results p then Ok results (* Duplicate *)
    else Ok (results ++ [p]).

(** The personality pass of [sanitizeParameters]. *)
Definition sanitizePersonalities (l : list Personality)
  : result (list Personality) :=
  reduce addPersonality l [].

(** The callback of the [map] over the authored questions. *)
Definition sanitizeQuestion (ps : list Personality) (question : Question)
  : result Question :=
  l <- filterAnswers ps (answers question) ;;
  let l := map (fun option =>
                  {| text := nullish (text option) (JsStr placeholder);
                     personality := personality option |}) l in
  Ok {| answers := l; q_rest := q_rest question |}.

(** The question pass of [sanitizeParameters], over the sanitized
    personalities. *)
Definition sanitizeQuestions (ps : list Personality) (l : list Question)
  : result (list Question) :=
  l' <- mapM (sanitizeQuestion ps) l ;;
  Ok (filter (fun question => negb (List.length (answers question) =? 0)%nat) l').

(** [sanitizeParameters()] *)
Definition sanitizeParameters (params : RawParams) : result Params :=
  ps <- sanitizePersonalities (personalitiesGroup params) ;;
  qs <- sanitizeQuestions ps (questionsGroup params) ;;
  Ok {| personalities := ps; questions := qs |}.

(** ** The specification's words *)

(** What the specification says of the personality pass: the records
    whose name is missing or empty are skipped and the names of the
    others are trimmed ([named]); of the records that share a trimmed name
    the first one is kept ([firstOfEachName]). *)
Definition trimmedName (p : Personality) : list Personality :=
  match name p with
  | JsStr (c :: s) => [{| name := JsStr (trim (c :: s)); p_rest := p_rest p |}]
  | _ => []
  end.

Definition named (l : list Personality) : list Personality :=
  flat_map trimmedName l.

Definition otherName (p q : Personality) : bool :=
  negb (strictEquals (name q) (name p)).

Fixpoint firstOfEachName (l : list Personality) : list Personality :=
  match l with
  | [] => []
  | p :: r => p :: filter (otherName p) (firstOfEachName r)
  end.

(** A name the sanitizer can work on: missing, or a string. *)
Definition nameWellFormed (p : Personality) : Prop :=
  name p = JsUndefined \/ name p = JsNull \/ exists s, name p = JsStr s.

(** A name the personality pass throws on: one that is not skipped and
    has no [trim] method. *)
Definition nameThrows (p : Personality) : Prop :=
  truthy (name p) = true /\ isString (name p) = false.

(** The personalities that a run of the personality pass can leave. *)
Definition Sanitized (ps : list Personality) : Prop :=
  exists raw, sanitizePersonalities raw = Ok ps.

Definition StringNames (ps : list Personality) : Prop :=
  Forall (fun p => exists s, name p = JsStr s) ps.

(** The lower-cased [n] is the lower-cased name of a personality. *)
Definition Matches (ps : list Personality) (n : jsstring) : Prop :=
  exists p s, In p ps /\ name p = JsStr s /\ toLowerCase s = n.

(** The canonical forms of the tokens that are valid, one for each
    occurrence, in the order of the tokens. *)
Definition canonicalTokens (ps : list Personality) (ts : list jsstring)
  : list jsstring :=
  flat_map (fun t => match sanitizePersonalityOption ps t with
                     | Ok (Some c) => [c]
                     | _ => []
                     end) ts.

(** What the specification says of the question pass: an answer option
    goes when its sanitized personality string is empty ([survives]), a
    question goes when no answer option of it is left ([hasSurvivor]);
    what is kept carries the sanitized string, and the placeholder for a
    text that is missing. *)
Definition sanitizedString (ps : list Personality) (a : Answer) : jsstring :=
  match sanitizeOptionPersonalities ps (personality a) with
  | Ok s => s
  | TypeError => []
  end.

Definition survives (ps : list Personality) (a : Answer) : bool :=
  negb (str_eqb (sanitizedString ps a) []).

(** A value that is missing: [undefined] or [null]. *)
Definition isMissing (v : JsVal) : bool :=
  match v with
  | JsUndefined | JsNull => true
  | _ => false
  end.

Definition keptAnswer (ps : list Personality) (a : Answer) : Answer :=
  {| text := if isMissing (text a) then JsStr placeholder else text a;
     personality := JsStr (sanitizedString ps a) |}.

Definition keptQuestion (ps : list Personality) (q : Question) : Question :=
  {| answers := map (keptAnswer ps) (filter (survives ps) (answers q));
     q_rest := q_rest q |}.

Definition hasSurvivor (ps : list Personality) (q : Question) : bool :=
  existsb (survives ps) (answers q).

(** The name of a record as it is matched: trimmed and lower-cased. *)
Definition matchingName (p : Personality) : JsVal :=
  match name p with
  | JsStr s => JsStr (toLowerCase (trim s))
  | v => v
  end.

(** C5 as the specification states it: no two personalities that are
    kept have names that are equal when compared without regard to
    case. *)
Definition namesUniqueIgnoringCase : Prop :=
  forall raw out,
    sanitizePersonalities raw = Ok out -> NoDup (map matchingName out).

Definition str_dec : forall a b : jsstring, {a = b} + {a <> b} :=
  list_eq_dec N.eq_dec.

(** C10 as it is stated: over sanitized personalities, sanitizing a
    sanitized string gives the same string. *)
Definition sanitizeIdempotent : Prop :=
  forall ps s out,
    Sanitized ps ->
    sanitizeOptionPersonalities ps (JsStr s) = Ok out ->
    sanitizeOptionPersonalities ps (JsStr out) = Ok out.

(** C6 as it is stated: the text of every answer option that is kept is
    a string that is not empty. *)
Definition keptTextsNonEmpty : Prop :=
  forall params out,
    sanitizeParameters params = Ok out ->
    forall q a, In q (questions out) -> In a (answers q) ->
                exists s, text a = JsStr s /\ s <> [].

(** ** Running the sanitizer again *)

(** [params] after sanitization, as parameters to sanitize. *)
Definition asRaw (out : Params) : RawParams :=
  {| personalitiesGroup := personalities out;
     questionsGroup := questions out |}.

(** The name is not the empty string. *)
Definition hasName (p : Personality) : bool :=
  negb (strictEquals (name p) (JsStr [])).

(** Two sanitized strings as one: a comma between them when neither is
    empty. *)
Definition joinSanitized (a b : jsstring) : jsstring :=
  match a, b with
  | [], _ => b
  | _, [] => a
  | _, _ => a ++ [comma] ++ b
  end.

(** ** Lists *)

Lemma filter_filter {A} (f g : A -> bool) (l : list A) :
  filter f (filter g l) = filter (fun x => g x && f x) l.
Proof.
  induction l as [|x l IH]; simpl; auto.
  destruct (g x); simpl; [destruct (f x)|]; now rewrite IH.
Qed.

Lemma filter_comm {A} (f g : A -> bool) (l : list A) :
  filter f (filter g l) = filter g (filter f l).
Proof.
  rewrite !filter_filter. apply filter_ext. intros x. apply andb_comm.
Qed.

Lemma filter_map_swap {A B} (g : A -> B) (f : B -> bool) (l : list A) :
  filter f (map g l) = map g (filter (fun x => f (g x)) l).
Proof.
  induction l as [|x l IH]; simpl; auto.
  destruct (f (g x)); simpl; now rewrite IH.
Qed.

Lemma NoDup_map_filter {A B} (g : A -> B) (f : A -> bool) (l : list A) :
  NoDup (map g l) -> NoDup (map g (filter f l)).
Proof.
  induction l as [|x l IH]; simpl; auto.
  intros N. inversion N as [|? ? X N']; subst.
  destruct (f x); simpl; auto. constructor; auto.
  intros I. apply X. apply in_map_iff in I. destruct I as (y & E & I).
  apply filter_In in I. apply in_map_iff. exists y. tauto.
Qed.

Lemma existsb_filter_length {A} (f : A -> bool) (l : list A) :
  negb (List.length (filter f l) =? 0)%nat = existsb f l.
Proof.
  induction l as [|x l IH]; simpl; auto. destruct (f x); simpl; auto.
Qed.

Lemma forallb_rev {A} (f : A -> bool) (l : list A) :
  forallb f (rev l) = forallb f l.
Proof.
  induction l as [|x l IH]; simpl; auto.
  rewrite forallb_app, IH. simpl. rewrite andb_true_r. apply andb_comm.
Qed.

Lemma mapM_Forall2 {A B} (f : A -> result B) (l : list A) (l' : list B) :
  mapM f l = Ok l' <-> Forall2 (fun x y => f x = Ok y) l l'.
Proof.
  revert l'. induction l as [|x l IH]; intros l'; simpl.
  - split.
    + intros E; injection E as <-. constructor.
    + intros F; inversion F; reflexivity.
  - split.
    + destruct (f x) as [y|] eqn:Fx; simpl; [|discriminate].
      destruct (mapM f l) as [ys|] eqn:M; simpl; [|discriminate].
      intros E; injection E as <-. constructor; auto. now apply IH.
    + intros F; inversion F as [|? y ? ys Fx Fl]; subst.
      apply IH in Fl. now rewrite Fx, Fl.
Qed.

Lemma mapM_total {A B} (f : A -> result B) (l : list A) :
  (forall x, In x l -> exists y, f x = Ok y) -> exists l', mapM f l = Ok l'.
Proof.
  induction l as [|x l IH]; simpl; intros H; [eauto|].
  destruct (H x) as (y & ->); auto.
  destruct IH as (l' & ->); auto. simpl. eauto.
Qed.

Lemma mapM_pure {A B} (f : A -> result B) (g : A -> B) (l : list A) :
  (forall x, In x l -> f x = Ok (g x)) -> mapM f l = Ok (map g l).
Proof.
  induction l as [|x l IH]; simpl; intros H; auto.
  rewrite H, IH by auto. reflexivity.
Qed.

Lemma mapM_ext_in {A B} (f g : A -> result B) (l : list A) :
  (forall x, In x l -> f x = g x) -> mapM f l = mapM g l.
Proof.
  induction l as [|x l IH]; simpl; intros E; auto.
  rewrite (E x), IH; auto.
Qed.

Lemma filter_none {A} (f : A -> bool) (l : list A) :
  (forall x, In x l -> f x = false) -> filter f l = [].
Proof.
  induction l as [|x l IH]; simpl; intros H; auto.
  rewrite (H x), IH; auto.
Qed.

Lemma filter_all {A} (f : A -> bool) (l : list A) :
  (forall x, In x l -> f x = true) -> filter f l = l.
Proof.
  induction l as [|x l IH]; simpl; intros H; auto.
  rewrite (H x), IH; auto.
Qed.

Lemma map_fixed {A} (g : A -> A) (l : list A) :
  (forall x, In x l -> g x = x) -> map g l = l.
Proof.
  induction l as [|x l IH]; simpl; intros H; auto.
  rewrite (H x), IH; auto.
Qed.

Lemma Forall2_map_r {A B} (R : A -> B -> Prop) (f : A -> B) (l : list A) :
  (forall x, In x l -> R x (f x)) -> Forall2 R l (map f l).
Proof.
  induction l as [|x l IH]; simpl; intros H; constructor; auto.
Qed.

(** ** Strings: equality and trimming *)

Lemma str_eqb_eq (a b : jsstring) : str_eqb a b = true <-> a = b.
Proof.
  revert b; induction a as [|x a IH]; intros [|y b]; simpl;
    try (split; congruence).
  rewrite andb_true_iff, N.eqb_eq, IH. split.
  - intros [-> ->]; reflexivity.
  - intros E; injection E; auto.
Qed.

Lemma str_eqb_neq (a b : jsstring) : str_eqb a b = false <-> a <> b.
Proof.
  rewrite <- str_eqb_eq. destruct (str_eqb a b); split; congruence.
Qed.

Lemma strictEquals_eq (a b : JsVal) : strictEquals a b = true <-> a = b.
Proof.
  destruct a, b; simpl; try (split; congruence).
  - rewrite Bool.eqb_true_iff. split; congruence.
  - rewrite Z.eqb_eq. split; congruence.
  - rewrite str_eqb_eq. split; congruence.
Qed.

Lemma strictEquals_refl (a : JsVal) : strictEquals a a = true.
Proof. apply strictEquals_eq; reflexivity. Qed.

Lemma strictEquals_sym (a b : JsVal) : strictEquals a b = strictEquals b a.
Proof.
  destruct (strictEquals a b) eqn:E1, (strictEquals b a) eqn:E2; auto.
  - apply strictEquals_eq in E1; subst. rewrite strictEquals_refl in E2.
    discriminate.
  - apply strictEquals_eq in E2; subst. rewrite strictEquals_refl in E1.
    discriminate.
Qed.

Lemma trimStart_idem (s : jsstring) : trimStart (trimStart s) = trimStart s.
Proof.
  induction s as [|c s IH]; simpl; auto.
  destruct (isWhiteSpace c) eqn:E; auto. simpl. now rewrite E.
Qed.

(** What [trimStart] leaves is a suffix, and starts with no white space. *)
Lemma trimStart_suffix (s : jsstring) :
  exists w, s = w ++ trimStart s /\ forallb isWhiteSpace w = true.
Proof.
  induction s as [|c s (w & E & W)]; simpl.
  - exists []; auto.
  - destruct (isWhiteSpace c) eqn:C.
    + exists (c :: w). simpl. rewrite C, W. split; [congruence | reflexivity].
    + exists []; auto.
Qed.

Lemma trimStart_fixed (s : jsstring) :
  trimStart s = s <->
  match s with [] => True | c :: _ => isWhiteSpace c = false end.
Proof.
  destruct s as [|c s]; simpl; [tauto|].
  destruct (isWhiteSpace c) eqn:C; split; auto; try discriminate.
  intros E. destruct (trimStart_suffix s) as (w & Es & _).
  assert (L : List.length s = List.length (w ++ trimStart s)) by congruence.
  rewrite E, length_app in L. simpl in L. lia.
Qed.

Lemma trimStart_all_space (s : jsstring) :
  forallb isWhiteSpace s = true <-> trimStart s = [].
Proof.
  induction s as [|c s IH]; simpl; [tauto|].
  destruct (isWhiteSpace c); simpl; auto. split; discriminate.
Qed.

(** Trimming the end keeps a start that is already trimmed. *)
Lemma trimEnd_keeps_start (s : jsstring) :
  trimStart s = s -> trimStart (trimEnd s) = trimEnd s.
Proof.
  intros F. unfold trimEnd.
  destruct (trimStart_suffix (rev s)) as (w & E & W).
  remember (trimStart (rev s)) as t eqn:T. clear T.
  apply (f_equal (@rev N)) in E. rewrite rev_involutive, rev_app_distr in E.
  destruct (rev t) as [|c r] eqn:R; auto.
  apply trimStart_fixed. simpl.
  rewrite E in F. apply trimStart_fixed in F. simpl in F. exact F.
Qed.

Lemma trimEnd_idem (s : jsstring) : trimEnd (trimEnd s) = trimEnd s.
Proof.
  unfold trimEnd. now rewrite rev_involutive, trimStart_idem.
Qed.

Lemma trim_idem (s : jsstring) : trim (trim s) = trim s.
Proof.
  unfold trim.
  rewrite (trimEnd_keeps_start (trimStart s) (trimStart_idem s)).
  apply trimEnd_idem.
Qed.

Lemma trimStart_incl (s : jsstring) (c : N) : In c (trimStart s) -> In c s.
Proof.
  destruct (trimStart_suffix s) as (w & E & _). intros H.
  rewrite E. apply in_or_app; auto.
Qed.

Lemma trim_incl (s : jsstring) (c : N) : In c (trim s) -> In c s.
Proof.
  unfold trim, trimEnd. intros H. apply in_rev in H.
  apply trimStart_incl in H. apply in_rev in H. now apply trimStart_incl.
Qed.

Lemma trim_all_space (s : jsstring) :
  forallb isWhiteSpace s = true -> trim s = [].
Proof.
  intros H. unfold trim. apply trimStart_all_space in H. now rewrite H.
Qed.

Lemma trim_nonempty (t : jsstring) :
  forallb isWhiteSpace t = false -> trim t <> [].
Proof.
  intros F T. unfold trim, trimEnd in T.
  apply (f_equal (@rev N)) in T. rewrite rev_involutive in T. simpl in T.
  apply trimStart_all_space in T. rewrite forallb_rev in T.
  destruct (trimStart_suffix t) as (w & E & W).
  rewrite E, forallb_app, W, T in F. discriminate.
Qed.

Lemma trimStart_space_app (w x : jsstring) :
  forallb isWhiteSpace w = true -> trimStart (w ++ x) = trimStart x.
Proof.
  induction w as [|c w IH]; simpl; auto.
  destruct (isWhiteSpace c); simpl; [auto|discriminate].
Qed.

Lemma trimStart_app_keep (a b : jsstring) :
  trimStart a <> [] -> trimStart (a ++ b) = trimStart a ++ b.
Proof.
  induction a as [|c a IH]; simpl; [congruence|].
  destruct (isWhiteSpace c); auto.
Qed.

Lemma trim_space_app (w x : jsstring) :
  forallb isWhiteSpace w = true -> trim (w ++ x) = trim x.
Proof. intros W. unfold trim. now rewrite trimStart_space_app. Qed.

Lemma trim_app_space (x w : jsstring) :
  forallb isWhiteSpace w = true -> trim (x ++ w) = trim x.
Proof.
  intros W. destruct (trimStart x) as [|c r] eqn:T.
  - rewrite !trim_all_space; auto.
    + now apply trimStart_all_space.
    + rewrite forallb_app, W, andb_true_r. now apply trimStart_all_space.
  - unfold trim. rewrite trimStart_app_keep by congruence.
    unfold trimEnd. rewrite rev_app_distr, trimStart_space_app; auto.
    now rewrite forallb_rev.
Qed.

Lemma space_not_equals (c : N) : isWhiteSpace c = true -> (c =? equals) = false.
Proof. unfold isWhiteSpace, equals. units. Qed.

Lemma space_not_digit (c : N) : isWhiteSpace c = true -> isDigit c = false.
Proof. unfold isWhiteSpace, isDigit. units. Qed.

(** ** Strings: [split] and [join] *)

Lemma split_nonempty (sep : N) (s : jsstring) : split sep s <> [].
Proof.
  destruct s as [|c r]; simpl; [discriminate|].
  destruct (c =? sep); [discriminate|].
  destruct (split sep r); discriminate.
Qed.

Lemma split_cons_other (sep c : N) (r : jsstring) :
  c <> sep ->
  exists h t, split sep r = h :: t /\ split sep (c :: r) = (c :: h) :: t.
Proof.
  intros D. simpl. apply N.eqb_neq in D. rewrite D.
  destruct (split sep r) as [|h t] eqn:E.
  - now apply split_nonempty in E.
  - now exists h, t.
Qed.

Lemma split_no_sep (sep : N) (s : jsstring) :
  Forall (fun t => ~ In sep t) (split sep s).
Proof.
  induction s as [|c r IH]; simpl.
  - constructor; auto.
  - destruct (N.eqb_spec c sep) as [->|D].
    + constructor; auto.
    + destruct (split sep r) as [|h t].
      * constructor; auto. simpl. intros [E|[]]. auto.
      * inversion IH; subst. constructor; auto. simpl. intros [E|I]; auto.
Qed.

Lemma join_split (sep : N) (s : jsstring) : join [sep] (split sep s) = s.
Proof.
  induction s as [|c r IH]; simpl; auto.
  destruct (N.eqb_spec c sep) as [->|D].
  - change (join [sep] ([] :: split sep r))
      with (match split sep r with
            | [] => []
            | _ => [] ++ [sep] ++ join [sep] (split sep r)
            end).
    destruct (split sep r) eqn:E; [now apply split_nonempty in E|].
    simpl. now rewrite <- IH.
  - destruct (split sep r) as [|h t] eqn:E; [now apply split_nonempty in E|].
    rewrite <- IH. simpl. destruct t; reflexivity.
Qed.

Lemma split_free (sep : N) (t : jsstring) : ~ In sep t -> split sep t = [t].
Proof.
  induction t as [|c t IH]; simpl; auto. intros H.
  destruct (N.eqb_spec c sep) as [->|D]; [exfalso; apply H; now left|].
  rewrite IH; [reflexivity|]. intros I. apply H. now right.
Qed.

Lemma split_app (sep : N) (t r : jsstring) :
  ~ In sep t -> split sep (t ++ sep :: r) = t :: split sep r.
Proof.
  induction t as [|c t IH]; simpl; intros H.
  - now rewrite N.eqb_refl.
  - destruct (N.eqb_spec c sep) as [->|D]; [exfalso; apply H; now left|].
    rewrite IH; [reflexivity|]. intros I. apply H. now right.
Qed.

Lemma split_join (sep : N) (l : list jsstring) :
  l <> [] -> Forall (fun t => ~ In sep t) l -> split sep (join [sep] l) = l.
Proof.
  induction l as [|t l IH]; [congruence|]. intros _ F.
  inversion F as [|? ? Ht Fl]; subst.
  destruct l as [|t' l].
  - simpl. now apply split_free.
  - change (join [sep] (t :: t' :: l)) with (t ++ sep :: join [sep] (t' :: l)).
    rewrite split_app by assumption. f_equal. apply IH; [discriminate|auto].
Qed.

Lemma split_snoc (sep : N) (pre suf : jsstring) :
  ~ In sep suf -> split sep (pre ++ sep :: suf) = split sep pre ++ [suf].
Proof.
  intros H. induction pre as [|c p IH].
  - simpl. rewrite N.eqb_refl. now rewrite split_free.
  - destruct (N.eqb_spec c sep) as [->|D].
    + simpl. rewrite N.eqb_refl. now rewrite IH.
    + destruct (split_cons_other sep c p D) as (h & t & E1 & E2).
      rewrite E2. simpl. apply N.eqb_neq in D. rewrite D, IH, E1.
      reflexivity.
Qed.

Lemma split_app_sep (sep : N) (a b : jsstring) :
  split sep (a ++ sep :: b) = split sep a ++ split sep b.
Proof.
  induction a as [|c r IH].
  - simpl. now rewrite N.eqb_refl.
  - destruct (N.eqb_spec c sep) as [->|D].
    + simpl. rewrite N.eqb_refl. now rewrite IH.
    + destruct (split_cons_other sep c r D) as (h & t & E1 & E2).
      rewrite E2. simpl. apply N.eqb_neq in D. rewrite D, IH, E1.
      reflexivity.
Qed.

Lemma join_nil (sep : jsstring) (l : list jsstring) :
  Forall (fun c => c <> []) l -> join sep l = [] -> l = [].
Proof.
  destruct l as [|c l]; auto. intros F. inversion F as [|? ? N _]; subst.
  destruct c as [|x c]; [congruence|]. destruct l; discriminate.
Qed.

Lemma join_nonempty (sep : jsstring) (x : jsstring) (l : list jsstring) :
  x <> [] -> join sep (x :: l) <> [].
Proof.
  intros N. destruct x as [|c x]; [congruence|]. destruct l; discriminate.
Qed.

Lemma join_app (l1 l2 : list jsstring) :
  Forall (fun c => c <> []) l1 -> Forall (fun c => c <> []) l2 ->
  join [comma] (l1 ++ l2)
  = joinSanitized (join [comma] l1) (join [comma] l2).
Proof.
  intros F1 F2. induction F1 as [|x r X F1 IH]; [reflexivity|].
  destruct r as [|y r].
  - cbn [app join]. destruct l2 as [|z l2].
    + destruct x; reflexivity.
    + inversion F2 as [|? ? Z _]; subst.
      pose proof (join_nonempty [comma] z l2 Z) as J.
      change (join [comma] (x :: z :: l2))
        with (x ++ [comma] ++ join [comma] (z :: l2)).
      unfold joinSanitized. destruct x; [congruence|].
      destruct (join [comma] (z :: l2)) eqn:EJ;
        [exfalso; apply J; first [exact EJ|reflexivity]|reflexivity].
  - change (join [comma] ((x :: y :: r) ++ l2))
      with (x ++ [comma] ++ join [comma] ((y :: r) ++ l2)).
    transitivity (x ++ [comma]
                    ++ joinSanitized (join [comma] (y :: r))
                         (join [comma] l2));
      [do 2 f_equal; exact IH|].
    change (join [comma] (x :: y :: r))
      with (x ++ [comma] ++ join [comma] (y :: r)).
    inversion F1 as [|? ? Y _]; subst.
    pose proof (join_nonempty [comma] y r Y) as J.
    unfold joinSanitized. destruct x as [|c x]; [congruence|].
    destruct (join [comma] (y :: r)) as [|d j] eqn:EJ;
      [exfalso; apply J; first [exact EJ|reflexivity]|].
    destruct (join [comma] l2); cbn [app]; [reflexivity|].
    now rewrite <- !app_assoc.
Qed.

(** ** The score pattern *)

Lemma digits1_units (s : jsstring) (c : N) :
  digits1 s = true -> In c s -> isDigit c = true.
Proof.
  destruct s as [|d r]; [discriminate|]. unfold digits1.
  intros F I. rewrite forallb_forall in F. auto.
Qed.

Lemma signedDigits_units (s : jsstring) (c : N) :
  signedDigits s = true -> In c s -> c = minus \/ isDigit c = true.
Proof.
  destruct s as [|d r]; [discriminate|]. unfold signedDigits.
  rewrite orb_true_iff, andb_true_iff, N.eqb_eq.
  intros [[-> D]|D] I.
  - destruct I as [<-|I]; [auto|]. right. eapply digits1_units; eauto.
  - right. eapply digits1_units; eauto.
Qed.

Lemma signedDigits_no_equals (s : jsstring) :
  signedDigits s = true -> ~ In equals s.
Proof.
  intros S I. destruct (signedDigits_units _ _ S I) as [E|E].
  - discriminate.
  - discriminate.
Qed.

Lemma signedDigits_no_comma (s : jsstring) :
  signedDigits s = true -> ~ In comma s.
Proof.
  intros S I. destruct (signedDigits_units _ _ S I) as [E|E].
  - discriminate.
  - discriminate.
Qed.

Lemma matchScore_intro (pre suf : jsstring) :
  signedDigits suf = true -> matchScore (pre ++ equals :: suf) = true.
Proof.
  intros S. induction pre as [|c p IH].
  - simpl. now rewrite S.
  - simpl app. simpl matchScore. fold matchScore.
    rewrite IH. apply orb_true_r.
Qed.

Lemma matchScore_elim (s : jsstring) :
  matchScore s = true ->
  exists pre suf, s = pre ++ equals :: suf /\ signedDigits suf = true.
Proof.
  induction s as [|c r IH]; simpl; [discriminate|].
  rewrite orb_true_iff, andb_true_iff, N.eqb_eq.
  intros [[-> S]|M].
  - now exists [], r.
  - destruct (IH M) as (pre & suf & -> & S). now exists (c :: pre), suf.
Qed.

Lemma matchScore_space_app (w t : jsstring) :
  forallb isWhiteSpace w = true -> matchScore (w ++ t) = matchScore t.
Proof.
  induction w as [|c w IH]; auto. simpl.
  destruct (isWhiteSpace c) eqn:C; [|discriminate]. simpl. intros W.
  now rewrite (space_not_equals c C), IH.
Qed.

Lemma digits1_last (r : jsstring) (d : N) :
  digits1 (r ++ [d]) = true -> isDigit d = true.
Proof.
  intros D. apply (digits1_units _ d D). apply in_or_app. right. now left.
Qed.

Lemma signedDigits_last (r : jsstring) (x : N) :
  signedDigits (r ++ [x]) = true -> isDigit x = true.
Proof.
  destruct r as [|y r]; cbn [app]; unfold signedDigits;
    rewrite orb_true_iff, andb_true_iff; intros [(_ & D)|D].
  - discriminate D.
  - apply (digits1_units _ x D). now left.
  - now apply digits1_last in D.
  - apply (digits1_units _ x D). right. apply in_or_app. right. now left.
Qed.

(** A string the score pattern matches ends in a digit. *)
Lemma matchScore_last (r : jsstring) (d : N) :
  matchScore (r ++ [d]) = true -> isDigit d = true.
Proof.
  intros M. apply matchScore_elim in M. destruct M as (pre & suf & E & S).
  destruct (exists_last (l := suf)) as (suf' & x & ->).
  { intros ->. discriminate S. }
  change (pre ++ equals :: suf' ++ [x]) with (pre ++ (equals :: suf') ++ [x])
    in E.
  rewrite app_assoc in E. apply app_inj_tail in E. destruct E as (_ & ->).
  now apply signedDigits_last in S.
Qed.

Lemma matchScore_app_space (t w : jsstring) :
  w <> [] -> forallb isWhiteSpace w = true -> matchScore (t ++ w) = false.
Proof.
  intros N W. destruct (exists_last N) as (w' & c & ->).
  rewrite forallb_app in W. simpl in W.
  rewrite andb_true_iff, andb_true_r in W. destruct W as (_ & C).
  destruct (matchScore (t ++ w' ++ [c])) eqn:M; auto.
  rewrite app_assoc in M. apply matchScore_last in M.
  rewrite (space_not_digit c C) in M. discriminate.
Qed.

(** ** The two halves of a token *)

Lemma splitPersonalityOption_score (pre suf : jsstring) :
  signedDigits suf = true ->
  splitPersonalityOption (pre ++ equals :: suf) = (pre, JsStr suf).
Proof.
  intros S. unfold splitPersonalityOption.
  rewrite matchScore_intro by assumption.
  rewrite split_snoc by now apply signedDigits_no_equals.
  rewrite last_last, removelast_last, join_split. reflexivity.
Qed.

Lemma splitPersonalityOption_plain (value : jsstring) :
  matchScore value = false ->
  splitPersonalityOption value = (value, JsNum 1).
Proof. intros M. unfold splitPersonalityOption. now rewrite M. Qed.

(** The score of a token is a signed integer as the token has it, or
    the number 1. *)
Lemma splitPersonalityOption_cases (value : jsstring) :
  (exists pre suf, value = pre ++ equals :: suf /\ signedDigits suf = true
                   /\ splitPersonalityOption value = (pre, JsStr suf))
  \/ (matchScore value = false
      /\ splitPersonalityOption value = (value, JsNum 1)).
Proof.
  destruct (matchScore value) eqn:M.
  - left. destruct (matchScore_elim value M) as (pre & suf & -> & S).
    exists pre, suf. repeat split; auto.
    now apply splitPersonalityOption_score.
  - right. split; auto. now apply splitPersonalityOption_plain.
Qed.

(** The name of a token is a part of the token. *)
Lemma splitPersonalityOption_incl (t n0 : jsstring) (score : JsVal) :
  splitPersonalityOption t = (n0, score) -> forall x, In x n0 -> In x t.
Proof.
  destruct (splitPersonalityOption_cases t)
    as [(pre & suf & -> & _ & ->)|(_ & ->)];
    intros E; injection E as <- _; auto.
  intros x I. apply in_or_app. now left.
Qed.

(** ** The personality pass *)

Lemma known_app (acc : list Personality) (p q : Personality) :
  negb (known (acc ++ [p]) q) = negb (known acc q) && otherName p q.
Proof.
  unfold known, otherName. rewrite existsb_app. simpl.
  rewrite orb_false_r, negb_orb, (strictEquals_sym (name p)). reflexivity.
Qed.

Lemma otherName_same (p q : Personality) :
  name p = name q -> forall x, otherName p x = otherName q x.
Proof. unfold otherName. now intros ->. Qed.

Lemma firstOfEachName_filter (p : Personality) (l : list Personality) :
  firstOfEachName (filter (otherName p) l)
  = filter (otherName p) (firstOfEachName l).
Proof.
  induction l as [|q l IH]; cbn [filter firstOfEachName]; auto.
  destruct (otherName p q) eqn:E; cbn [filter firstOfEachName].
  - rewrite IH. f_equal. apply filter_comm.
  - rewrite IH. unfold otherName in E. apply negb_false_iff in E.
    apply strictEquals_eq in E.
    rewrite (filter_ext _ _ (otherName_same q p E)).
    rewrite filter_filter. apply filter_ext. intros x.
    now destruct (otherName p x).
Qed.

Lemma addPersonality_spec (acc : list Personality) (p : Personality)
      (out : list Personality) :
  addPersonality acc p = Ok out ->
  out = fold_left (fun a q => if known a q then a else a ++ [q])
          (trimmedName p) acc.
Proof.
  unfold addPersonality, trimmedName.
  destruct p as [[| |[|]|n|[|c s]] k]; simpl; try congruence.
  - destruct (n =? 0)%Z; simpl; congruence.
  - destruct (known acc _); congruence.
Qed.

Lemma reduce_addPersonality (l acc out : list Personality) :
  reduce addPersonality l acc = Ok out ->
  out = acc ++ firstOfEachName
                 (filter (fun q => negb (known acc q)) (named l)).
Proof.
  revert acc. induction l as [|p l IH]; intros acc; simpl.
  - intros E; injection E as <-. now rewrite app_nil_r.
  - destruct (addPersonality acc p) as [acc'|] eqn:A; simpl; [|discriminate].
    intros R. apply IH in R. apply addPersonality_spec in A.
    rewrite filter_app. unfold trimmedName in *.
    destruct (name p) as [| | | |[|c s]]; simpl in A; subst acc'; auto.
    set (q := {| name := JsStr (trim (c :: s)); p_rest := p_rest p |}) in *.
    simpl. destruct (known acc q) eqn:K; simpl; auto.
    rewrite R, <- app_assoc. simpl. do 2 f_equal.
    rewrite <- firstOfEachName_filter, filter_filter.
    f_equal. apply filter_ext. intros x. apply known_app.
Qed.

Lemma sanitizePersonalities_spec (raw out : list Personality) :
  sanitizePersonalities raw = Ok out -> out = firstOfEachName (named raw).
Proof.
  intros R. apply reduce_addPersonality in R. simpl in R. subst out.
  f_equal. clear. induction (named raw) as [|x l IH]; simpl; congruence.
Qed.

Lemma reduce_addPersonality_total (l acc : list Personality) :
  Forall nameWellFormed l -> exists out, reduce addPersonality l acc = Ok out.
Proof.
  intros F. revert acc. induction F as [|p l W F IH]; intros acc; simpl.
  - now exists acc.
  - assert (A : exists acc', addPersonality acc p = Ok acc').
    { unfold addPersonality.
      destruct W as [E|[E|(s & E)]]; rewrite E; simpl; eauto.
      destruct s as [|c s]; simpl; eauto.
      destruct (known acc _); eauto. }
    destruct A as (acc' & ->). simpl. apply IH.
Qed.

Lemma firstOfEachName_incl (l : list Personality) (p : Personality) :
  In p (firstOfEachName l) -> In p l.
Proof.
  induction l as [|q l IH]; simpl; auto.
  intros [E|I]; auto. apply filter_In in I. right. tauto.
Qed.

Lemma firstOfEachName_NoDup (l : list Personality) :
  NoDup (map name (firstOfEachName l)).
Proof.
  induction l as [|p l IH]; simpl; constructor.
  - intros I. apply in_map_iff in I. destruct I as (q & E & I).
    apply filter_In in I. destruct I as (_ & O). unfold otherName in O.
    rewrite E, strictEquals_refl in O. discriminate.
  - now apply NoDup_map_filter.
Qed.

(** Every name of [l] is the name of a record that is kept. *)
Lemma firstOfEachName_names (l : list Personality) (p : Personality) :
  In p l -> In (name p) (map name (firstOfEachName l)).
Proof.
  induction l as [|q l IH]; simpl; [tauto|].
  intros [->|I]; auto.
  destruct (strictEquals (name p) (name q)) eqn:E.
  - apply strictEquals_eq in E. auto.
  - right. specialize (IH I). apply in_map_iff in IH.
    destruct IH as (x & Ex & Ix). apply in_map_iff. exists x. split; auto.
    apply filter_In. split; auto. unfold otherName. now rewrite Ex, E.
Qed.

(** The first record of a name is the one that is kept. *)
Lemma firstOfEachName_first (a b : list Personality) (p : Personality) :
  (forall q, In q a -> name q <> name p) ->
  In p (firstOfEachName (a ++ p :: b)).
Proof.
  induction a as [|x a IH]; simpl; auto.
  intros H. right. apply filter_In. split; auto.
  unfold otherName. apply negb_true_iff.
  destruct (strictEquals (name p) (name x)) eqn:E; auto.
  apply strictEquals_eq in E. exfalso. apply (H x); auto.
Qed.

Lemma named_In (l : list Personality) (p : Personality) :
  In p (named l) <->
  exists q s, In q l /\ name q = JsStr s /\ s <> []
              /\ p = {| name := JsStr (trim s); p_rest := p_rest q |}.
Proof.
  unfold named. rewrite in_flat_map. split.
  - intros (q & I & T). unfold trimmedName in T.
    destruct (name q) as [| | | |[|c s]] eqn:E; simpl in T; try tauto.
    destruct T as [<-|[]]. exists q, (c :: s). repeat split; auto.
    discriminate.
  - intros (q & s & I & E & N & ->). exists q. split; auto.
    unfold trimmedName. rewrite E. destruct s; [congruence|]. now left.
Qed.

Lemma named_app (a b : list Personality) : named (a ++ b) = named a ++ named b.
Proof. unfold named. apply flat_map_app. Qed.

(** A record whose trimmed name no earlier record has is kept. *)
Lemma first_named_kept (a b : list Personality) (q : Personality)
      (s : jsstring) :
  name q = JsStr s -> s <> [] ->
  (forall x t, In x a -> name x = JsStr t -> t <> [] -> trim t <> trim s) ->
  In {| name := JsStr (trim s); p_rest := p_rest q |}
    (firstOfEachName (named (a ++ q :: b))).
Proof.
  intros E N H. rewrite named_app.
  change (named (q :: b)) with (trimmedName q ++ named b).
  unfold trimmedName. rewrite E.
  destruct s as [|c s]; [congruence|]. cbn [app].
  apply firstOfEachName_first. intros x I. apply named_In in I.
  destruct I as (y & t & I & Ey & Nt & ->). simpl. intros Q.
  injection Q as Q. eapply H; eauto.
Qed.

Lemma Sanitized_names (ps : list Personality) :
  Sanitized ps ->
  Forall (fun p => exists s, name p = JsStr s /\ trim s = s) ps.
Proof.
  intros (raw & R). apply sanitizePersonalities_spec in R. subst ps.
  apply Forall_forall. intros p I. apply firstOfEachName_incl in I.
  apply named_In in I. destruct I as (q & s & _ & _ & _ & ->).
  exists (trim s). split; auto. apply trim_idem.
Qed.

Lemma Sanitized_StringNames (ps : list Personality) :
  Sanitized ps -> StringNames ps.
Proof.
  intros S. apply Sanitized_names in S. unfold StringNames.
  eapply Forall_impl; [|exact S]. intros p (s & E & _). eauto.
Qed.

Lemma Sanitized_nameWellFormed (ps : list Personality) :
  StringNames ps -> Forall nameWellFormed ps.
Proof.
  intros S. eapply Forall_impl; [|exact S].
  intros p (s & E). right. right. eauto.
Qed.

Lemma firstOfEachName_NoDup_fixed (l : list Personality) :
  NoDup (map name l) -> firstOfEachName l = l.
Proof.
  induction l as [|p l IH]; simpl; auto.
  intros N. inversion N as [|? ? X N']; subst.
  rewrite IH by assumption. f_equal. apply filter_all.
  intros q I. unfold otherName. apply negb_true_iff.
  destruct (strictEquals (name q) (name p)) eqn:E; auto.
  apply strictEquals_eq in E. exfalso. apply X. rewrite <- E.
  now apply in_map.
Qed.

Lemma named_trimmed (l : list Personality) :
  Forall (fun p => exists s, name p = JsStr s /\ trim s = s) l ->
  named l = filter hasName l.
Proof.
  induction 1 as [|p l (s & E & T) F IH]; simpl; auto.
  rewrite IH. unfold trimmedName, hasName. rewrite E.
  destruct p as [n k]. simpl in E. subst n.
  destruct s as [|c s]; simpl; auto. now rewrite T.
Qed.

Lemma sanitizePersonalities_rerun (out : list Personality) :
  Sanitized out -> sanitizePersonalities out = Ok (filter hasName out).
Proof.
  intros S.
  destruct (reduce_addPersonality_total out []
              (Sanitized_nameWellFormed _ (Sanitized_StringNames _ S)))
    as (out' & R').
  unfold sanitizePersonalities at 1. rewrite R'. f_equal.
  apply sanitizePersonalities_spec in R'. rewrite R'.
  rewrite (named_trimmed _ (Sanitized_names _ S)).
  apply firstOfEachName_NoDup_fixed, NoDup_map_filter.
  destruct S as (raw & R).
  apply sanitizePersonalities_spec in R. rewrite R.
  apply firstOfEachName_NoDup.
Qed.

(** ** Looking a name up *)

Lemma isPersonalityNameValid_spec (ps : list Personality) (n : jsstring) :
  StringNames ps ->
  exists b, isPersonalityNameValid ps n = Ok b /\ (b = true <-> Matches ps n).
Proof.
  unfold isPersonalityNameValid.
  induction 1 as [|p ps (s & E) F (b & IH & M)]; simpl.
  - exists false. split; auto. split; [discriminate|].
    intros (p & s & [] & _).
  - rewrite E. simpl. destruct (str_eqb (toLowerCase s) n) eqn:Q.
    + exists true. split; auto. split; auto. intros _.
      apply str_eqb_eq in Q. exists p, s. simpl. auto.
    + exists b. split; auto. rewrite M. apply str_eqb_neq in Q. split.
      * intros (q & t & I & Eq & L). exists q, t. simpl. auto.
      * intros (q & t & [<-|I] & Eq & L).
        -- congruence.
        -- exists q, t. auto.
Qed.

Lemma Matches_incl (ps ps2 : list Personality) (n : jsstring) :
  incl (map name ps) (map name ps2) -> Matches ps n -> Matches ps2 n.
Proof.
  intros I (p & s & Ip & E & L).
  assert (J : In (JsStr s) (map name ps2)).
  { apply I. rewrite <- E. now apply in_map. }
  apply in_map_iff in J. destruct J as (p2 & E2 & I2). now exists p2, s.
Qed.

Lemma Matches_matchingName (ps : list Personality) (n : jsstring) :
  Sanitized ps ->
  Matches ps n <-> In (JsStr n) (map matchingName ps).
Proof.
  intros S. apply Sanitized_names in S. rewrite Forall_forall in S.
  rewrite in_map_iff. split.
  - intros (p & s & I & E & L). exists p. split; auto.
    unfold matchingName. rewrite E.
    destruct (S p I) as (s' & E' & T). rewrite E in E'.
    injection E' as <-. now rewrite T, L.
  - intros (p & E & I). destruct (S p I) as (s & Es & T).
    exists p, s. repeat split; auto.
    unfold matchingName in E. rewrite Es, T in E. now injection E.
Qed.

(** ** Tokens, answer options and questions over fixed personalities *)

Section OverPersonalities.

Variable ps : list Personality.

(** What a token that is kept looks like. *)
Lemma sanitizePersonalityOption_shape (t c : jsstring) :
  sanitizePersonalityOption ps t = Ok (Some c) ->
  exists n0 suf,
    (forall x, In x n0 -> In x t) /\ signedDigits suf = true
    /\ c = toLowerCase (trim n0) ++ equals :: suf
    /\ isPersonalityNameValid ps (toLowerCase (trim n0)) = Ok true.
Proof.
  unfold sanitizePersonalityOption.
  destruct (splitPersonalityOption_cases t)
    as [(pre & suf & -> & S & ->)|(_ & ->)].
  - destruct (isPersonalityNameValid ps (toLowerCase (trim pre)))
      as [[|]|] eqn:V; simpl; try discriminate.
    intros E; injection E as <-. exists pre, suf. repeat split; auto.
    intros x I. apply in_or_app. auto.
  - destruct (isPersonalityNameValid ps (toLowerCase (trim t)))
      as [[|]|] eqn:V; simpl; try discriminate.
    intros E; injection E as <-. exists t, [49]. repeat split; auto.
Qed.

Lemma dropNull_canonicalTokens (ts : list jsstring)
      (l : list (option jsstring)) :
  mapM (sanitizePersonalityOption ps) ts = Ok l ->
  dropNull l = canonicalTokens ps ts.
Proof.
  rewrite mapM_Forall2. induction 1 as [|t o ts l E F IH]; simpl; auto.
  rewrite E. destruct o; simpl; congruence.
Qed.

Lemma canonicalTokens_In (ts : list jsstring) (c : jsstring) :
  In c (canonicalTokens ps ts) <->
  exists t, In t ts /\ sanitizePersonalityOption ps t = Ok (Some c).
Proof.
  unfold canonicalTokens. rewrite in_flat_map. split.
  - intros (t & I & H). exists t. split; auto.
    destruct (sanitizePersonalityOption ps t) as [[c'|]|]; simpl in H;
      try tauto.
    destruct H as [->|[]]. reflexivity.
  - intros (t & I & E). exists t. rewrite E. simpl. auto.
Qed.

Lemma canonicalTokens_nonempty (ts : list jsstring) :
  Forall (fun c => c <> []) (canonicalTokens ps ts).
Proof.
  apply Forall_forall. intros c I. apply canonicalTokens_In in I.
  destruct I as (t & _ & E). apply sanitizePersonalityOption_shape in E.
  destruct E as (n0 & suf & _ & _ & -> & _).
  destruct (toLowerCase (trim n0)); discriminate.
Qed.

Lemma canonicalTokens_count (ts : list jsstring) (t c : jsstring) :
  sanitizePersonalityOption ps t = Ok (Some c) ->
  (count_occ str_dec ts t <= count_occ str_dec (canonicalTokens ps ts) c)%nat.
Proof.
  intros E. induction ts as [|x ts IH]; simpl; auto.
  destruct (str_dec x t) as [->|D].
  - rewrite E. simpl. destruct (str_dec c c); [lia|congruence].
  - rewrite count_occ_app. lia.
Qed.

Lemma survives_false (a : Answer) :
  sanitizeOptionPersonalities ps (personality a) = Ok [] ->
  survives ps a = false.
Proof. unfold survives, sanitizedString. now intros ->. Qed.

Lemma hasSurvivor_false (q : Question) :
  (forall a, In a (answers q) ->
             sanitizeOptionPersonalities ps (personality a) = Ok []) ->
  hasSurvivor ps q = false.
Proof.
  intros H. unfold hasSurvivor.
  destruct (existsb (survives ps) (answers q)) eqn:E; auto.
  apply existsb_exists in E. destruct E as (a & I & V).
  rewrite (survives_false a (H a I)) in V. discriminate.
Qed.

(** From here on every personality has a string for its name, as after
    the personality pass: looking a name up does not throw. *)
Hypothesis names : StringNames ps.

Lemma sanitizePersonalityOption_spec (value n0 : jsstring) (score : JsVal) :
  splitPersonalityOption value = (n0, score) ->
  (Matches ps (toLowerCase (trim n0)) ->
   sanitizePersonalityOption ps value
   = Ok (Some (toLowerCase (trim n0) ++ [equals] ++ toString score)))
  /\ (~ Matches ps (toLowerCase (trim n0)) ->
      sanitizePersonalityOption ps value = Ok None).
Proof.
  intros E. unfold sanitizePersonalityOption. rewrite E.
  destruct (isPersonalityNameValid_spec ps (toLowerCase (trim n0)) names)
    as (b & -> & M).
  simpl. destruct b; simpl; split; intros H; auto.
  - exfalso. apply H, M. reflexivity.
  - apply M in H. discriminate.
Qed.

Lemma sanitizePersonalityOption_total (value : jsstring) :
  exists r, sanitizePersonalityOption ps value = Ok r.
Proof.
  destruct (splitPersonalityOption value) as (n0, score) eqn:E.
  destruct (sanitizePersonalityOption_spec value n0 score E) as (A & B).
  destruct (isPersonalityNameValid_spec ps (toLowerCase (trim n0)) names)
    as ([|] & _ & M).
  - eexists. apply A, M. reflexivity.
  - eexists. apply B. intros H. apply M in H. discriminate.
Qed.

Lemma sanitizeOptionPersonalities_spec (s : jsstring) :
  sanitizeOptionPersonalities ps (JsStr s)
  = Ok (join [comma] (canonicalTokens ps (split comma s))).
Proof.
  simpl.
  destruct (mapM_total (sanitizePersonalityOption ps) (split comma s))
    as (l & M).
  { intros t _. apply sanitizePersonalityOption_total. }
  rewrite M. simpl. now rewrite (dropNull_canonicalTokens _ _ M).
Qed.

Lemma sanitizedString_ok (a : Answer) :
  sanitizeOptionPersonalities ps (personality a) = Ok (sanitizedString ps a).
Proof.
  unfold sanitizedString.
  destruct (personality a) as [| | | |s]; try reflexivity.
  now rewrite sanitizeOptionPersonalities_spec.
Qed.

(** An answer option survives exactly when one of its tokens is valid. *)
Lemma survives_iff (a : Answer) :
  survives ps a = true <->
  exists s, personality a = JsStr s
            /\ canonicalTokens ps (split comma s) <> [].
Proof.
  unfold survives, sanitizedString.
  destruct (personality a) as [| | | |s];
    try (simpl; split; [discriminate|intros (s & E & _); discriminate]).
  rewrite sanitizeOptionPersonalities_spec, negb_true_iff, str_eqb_neq.
  split.
  - intros J. exists s. split; auto. intros C. apply J. now rewrite C.
  - intros (s' & E & C) J. injection E as <-. apply C.
    eapply join_nil; eauto. apply canonicalTokens_nonempty.
Qed.

Lemma filterAnswers_spec (l : list Answer) :
  filterAnswers ps l
  = Ok (map (fun a => {| text := text a;
                         personality := JsStr (sanitizedString ps a) |})
          (filter (survives ps) l)).
Proof.
  unfold filterAnswers.
  rewrite (mapM_pure _
             (fun a => {| text := text a;
                          personality := JsStr (sanitizedString ps a) |})).
  - simpl. rewrite filter_map_swap. reflexivity.
  - intros a _. now rewrite sanitizedString_ok.
Qed.

Lemma sanitizeQuestion_spec (q : Question) :
  sanitizeQuestion ps q = Ok (keptQuestion ps q).
Proof.
  unfold sanitizeQuestion, keptQuestion.
  rewrite filterAnswers_spec. simpl. rewrite map_map.
  do 2 f_equal. apply map_ext. intros a. unfold keptAnswer, nullish. simpl.
  now destruct (text a).
Qed.

Lemma sanitizeQuestions_spec (qs : list Question) :
  sanitizeQuestions ps qs
  = Ok (map (keptQuestion ps) (filter (hasSurvivor ps) qs)).
Proof.
  unfold sanitizeQuestions.
  rewrite (mapM_pure _ (keptQuestion ps))
    by (intros; apply sanitizeQuestion_spec).
  simpl. rewrite filter_map_swap. do 2 f_equal. apply filter_ext.
  intros q. unfold keptQuestion, hasSurvivor. cbn [answers].
  rewrite length_map. apply existsb_filter_length.
Qed.

End OverPersonalities.

Lemma canonicalTokens_none (ts : list jsstring) : canonicalTokens [] ts = [].
Proof.
  induction ts as [|t ts IH]; simpl; auto.
  unfold sanitizePersonalityOption.
  destruct (splitPersonalityOption t); simpl. exact IH.
Qed.

Lemma canonicalTokens_app (ps : list Personality) (l1 l2 : list jsstring) :
  canonicalTokens ps (l1 ++ l2)
  = canonicalTokens ps l1 ++ canonicalTokens ps l2.
Proof. unfold canonicalTokens. apply flat_map_app. Qed.

Lemma keptQuestion_hasSurvivor (ps : list Personality) (q : Question) :
  answers (keptQuestion ps q) <> [] -> hasSurvivor ps q = true.
Proof.
  cbn [keptQuestion answers]. unfold hasSurvivor. intros N.
  destruct (filter (survives ps) (answers q)) as [|a l] eqn:F;
    [now contradiction N|].
  assert (I : In a (filter (survives ps) (answers q))).
  { rewrite F. now left. }
  apply filter_In in I. apply existsb_exists. now exists a.
Qed.

Section MorePersonalities.

Variables ps ps2 : list Personality.
Hypothesis names : StringNames ps.
Hypothesis names2 : StringNames ps2.
Hypothesis more : incl (map name ps) (map name ps2).

Lemma sanitizePersonalityOption_more (t c : jsstring) :
  sanitizePersonalityOption ps t = Ok (Some c) ->
  sanitizePersonalityOption ps2 t = Ok (Some c).
Proof.
  destruct (splitPersonalityOption t) as (n0, score) eqn:E.
  destruct (sanitizePersonalityOption_spec ps names t n0 score E) as (A & B).
  destruct (sanitizePersonalityOption_spec ps2 names2 t n0 score E)
    as (A2 & _).
  destruct (isPersonalityNameValid_spec ps (toLowerCase (trim n0)) names)
    as ([|] & _ & M).
  - assert (H : Matches ps (toLowerCase (trim n0))) by now apply M.
    rewrite (A H), (A2 (Matches_incl _ _ _ more H)). auto.
  - rewrite B; [discriminate|]. intros H. apply M in H. discriminate.
Qed.

Lemma survives_more (a : Answer) :
  survives ps a = true -> survives ps2 a = true.
Proof.
  rewrite (survives_iff ps names), (survives_iff ps2 names2).
  intros (s & E & C). exists s. split; auto.
  destruct (canonicalTokens ps (split comma s)) as [|c cs] eqn:T;
    [congruence|].
  assert (I : In c (canonicalTokens ps (split comma s))).
  { rewrite T. now left. }
  apply canonicalTokens_In in I. destruct I as (t & I & H).
  apply sanitizePersonalityOption_more in H. intros N.
  assert (J : In c (canonicalTokens ps2 (split comma s))).
  { apply canonicalTokens_In. eauto. }
  rewrite N in J. destruct J.
Qed.

Lemma hasSurvivor_more (q : Question) :
  hasSurvivor ps q = true -> hasSurvivor ps2 q = true.
Proof.
  unfold hasSurvivor. rewrite !existsb_exists.
  intros (a & I & V). exists a. split; auto. now apply survives_more.
Qed.

End MorePersonalities.

(** ** The whole of [sanitizeParameters] *)

Lemma sanitizeParameters_inv (params : RawParams) (out : Params) :
  sanitizeParameters params = Ok out ->
  sanitizePersonalities (personalitiesGroup params) = Ok (personalities out)
  /\ sanitizeQuestions (personalities out) (questionsGroup params)
     = Ok (questions out).
Proof.
  unfold sanitizeParameters.
  destruct (sanitizePersonalities _) as [ps|]; simpl; [|discriminate].
  destruct (sanitizeQuestions ps _) as [qs|] eqn:Q; simpl; [|discriminate].
  intros E; injection E as <-. simpl. auto.
Qed.

Lemma sanitizeParameters_total (params : RawParams) :
  Forall nameWellFormed (personalitiesGroup params) ->
  exists out, sanitizeParameters params = Ok out.
Proof.
  intros W. unfold sanitizeParameters.
  destruct (reduce_addPersonality_total _ [] W) as (ps & R).
  unfold sanitizePersonalities at 1. rewrite R. simpl.
  rewrite sanitizeQuestions_spec; [simpl; eauto|].
  apply Sanitized_StringNames. now exists (personalitiesGroup params).
Qed.

Lemma sanitizeParameters_StringNames (params : RawParams) (out : Params) :
  sanitizeParameters params = Ok out -> StringNames (personalities out).
Proof.
  intros R. apply sanitizeParameters_inv in R. destruct R as (P & _).
  apply Sanitized_StringNames. now exists (personalitiesGroup params).
Qed.

Lemma sanitizeParameters_questions (params : RawParams) (out : Params) :
  sanitizeParameters params = Ok out ->
  questions out
  = map (keptQuestion (personalities out))
      (filter (hasSurvivor (personalities out)) (questionsGroup params)).
Proof.
  intros R. pose proof (sanitizeParameters_StringNames _ _ R) as S.
  apply sanitizeParameters_inv in R. destruct R as (_ & Q).
  rewrite sanitizeQuestions_spec in Q by assumption. now injection Q.
Qed.

(** ** The specification's claims: personalities *)

(** C1: the personality pass goes through the records in the given
    order, skips a record whose name is missing or empty, trims the name
    of every other record, and drops a record whose trimmed name, compared
    code unit by code unit, is the name of a record already kept. So of
    the records with one trimmed name the first is the one kept, no name
    is kept twice, every trimmed name is kept once, and a kept name is
    the trimmed authored name in the authored case. *)
Theorem sanitizePersonalities_first_occurrence (raw : list Personality) :
  Forall nameWellFormed raw ->
  exists out,
    sanitizePersonalities raw = Ok out
    /\ out = firstOfEachName (named raw)
    /\ NoDup (map name out)
    /\ (forall p, In p out ->
        exists q s, In q raw /\ name q = JsStr s /\ s <> []
                    /\ p = {| name := JsStr (trim s); p_rest := p_rest q |})
    /\ (forall q s,
          In q raw -> name q = JsStr s -> s <> [] ->
          In (JsStr (trim s)) (map name out))
    /\ (forall a q b s,
          raw = a ++ q :: b -> name q = JsStr s -> s <> [] ->
          (forall x t, In x a -> name x = JsStr t -> t <> [] ->
                       trim t <> trim s) ->
          In {| name := JsStr (trim s); p_rest := p_rest q |} out).
Proof.
  intros W. destruct (reduce_addPersonality_total raw [] W) as (out & R).
  exists out. split; [exact R|].
  apply sanitizePersonalities_spec in R. subst out.
  split; [reflexivity|]. split; [apply firstOfEachName_NoDup|].
  split; [|split].
  - intros p I. apply firstOfEachName_incl in I. now apply named_In.
  - intros q s I E N.
    apply (firstOfEachName_names (named raw)
             {| name := JsStr (trim s); p_rest := p_rest q |}).
    apply named_In. now exists q, s.
  - intros a q b s -> E N H. now apply first_named_kept.
Qed.

(** C9: a record whose name is a non-empty string of white space only
    is not skipped: the first such record is kept, with the empty string
    for its name. *)
Theorem sanitizePersonalities_blank_name_kept
        (a b : list Personality) (p : Personality) (s : jsstring) :
  Forall nameWellFormed (a ++ p :: b) ->
  name p = JsStr s -> s <> [] -> forallb isWhiteSpace s = true ->
  (forall x t, In x a -> name x = JsStr t -> t <> [] ->
               forallb isWhiteSpace t = false) ->
  exists out,
    sanitizePersonalities (a ++ p :: b) = Ok out
    /\ In {| name := JsStr []; p_rest := p_rest p |} out.
Proof.
  intros W E N B H.
  destruct (reduce_addPersonality_total _ [] W) as (out & R).
  exists out. split; [exact R|].
  apply sanitizePersonalities_spec in R. subst out.
  rewrite <- (trim_all_space s B).
  apply first_named_kept; auto.
  intros x t I Ex Nt. rewrite (trim_all_space s B).
  apply trim_nonempty. eauto.
Qed.

(** C5, amended: no two personalities that are kept have the same name,
    compared code unit by code unit, and every name that is kept is a
    trimmed string. *)
Theorem sanitizePersonalities_names_unique (raw out : list Personality) :
  sanitizePersonalities raw = Ok out ->
  NoDup (map name out)
  /\ Forall (fun p => exists s, name p = JsStr s /\ trim s = s) out.
Proof.
  intros R. split.
  - apply sanitizePersonalities_spec in R. subst out.
    apply firstOfEachName_NoDup.
  - apply Sanitized_names. now exists raw.
Qed.

(** ** The specification's claims: tokens *)

(** C2: a token that ends in [=] and an integer, negative or not, is
    split at its last [=]: what follows is the score, what precedes is the
    name. Any other token, one that ends in [=] and something that is
    not an integer among them, is the name as a whole, and its score
    is the number 1. *)
Theorem splitPersonalityOption_last_equals (value : jsstring) :
  (forall pre suf,
      value = pre ++ equals :: suf -> signedDigits suf = true ->
      ~ In equals suf /\ splitPersonalityOption value = (pre, JsStr suf))
  /\ ((forall pre suf,
          value = pre ++ equals :: suf -> signedDigits suf = false) ->
      splitPersonalityOption value = (value, JsNum 1)).
Proof.
  split.
  - intros pre suf -> S. split.
    + now apply signedDigits_no_equals.
    + now apply splitPersonalityOption_score.
  - intros H. apply splitPersonalityOption_plain.
    destruct (matchScore value) eqn:M; auto.
    destruct (matchScore_elim value M) as (pre & suf & E & S).
    rewrite (H pre suf E) in S. discriminate.
Qed.

(** ** The specification's claims: answer options and questions *)

(** C8: over sanitized personalities, [sanitizeOptionPersonalities]
    throws for no value: it returns a string, the empty one for a value
    that is not a string, and [filterAnswers] then drops the answer
    option. *)
Theorem sanitizeOptionPersonalities_never_throws
        (ps : list Personality) (v : JsVal) :
  Sanitized ps ->
  exists out,
    sanitizeOptionPersonalities ps v = Ok out
    /\ (isString v = false ->
        out = []
        /\ forall t, filterAnswers ps [{| text := t; personality := v |}]
                     = Ok []).
Proof.
  intros S. apply Sanitized_StringNames in S.
  destruct v as [| | | |s]; simpl isString;
    try (exists []; split; [reflexivity|]; intros _; split;
         [reflexivity|intros t; reflexivity]).
  eexists. split; [now apply sanitizeOptionPersonalities_spec|].
  discriminate.
Qed.

(** C4: an answer option is discarded exactly when its sanitized
    personality string is empty, which is when none of its tokens is
    valid, and a question exactly when no answer option of it is left; a
    question whose every answer is sanitized to the empty string is
    dropped, and the questions that are kept are those of the list
    without it. *)
Theorem sanitizeParameters_keeps_answered (params : RawParams) :
  Forall nameWellFormed (personalitiesGroup params) ->
  exists out,
    sanitizeParameters params = Ok out
    /\ (forall a,
          survives (personalities out) a = true <->
          exists s, personality a = JsStr s
                    /\ canonicalTokens (personalities out) (split comma s)
                       <> [])
    /\ (forall l,
          filterAnswers (personalities out) l
          = Ok (map (fun a =>
                       {| text := text a;
                          personality :=
                            JsStr (sanitizedString (personalities out) a) |})
                  (filter (survives (personalities out)) l)))
    /\ questions out
       = map (keptQuestion (personalities out))
           (filter (hasSurvivor (personalities out)) (questionsGroup params))
    /\ (forall qs1 q qs2,
          questionsGroup params = qs1 ++ q :: qs2 ->
          (forall a, In a (answers q) ->
                     sanitizeOptionPersonalities (personalities out)
                       (personality a) = Ok []) ->
          questions out
          = map (keptQuestion (personalities out))
              (filter (hasSurvivor (personalities out)) (qs1 ++ qs2))).
Proof.
  intros W. destruct (sanitizeParameters_total params W) as (out & R).
  exists out. split; [exact R|].
  apply sanitizeParameters_inv in R. destruct R as (P & Q).
  assert (S : StringNames (personalities out)).
  { apply Sanitized_StringNames. now exists (personalitiesGroup params). }
  rewrite sanitizeQuestions_spec in Q by assumption. injection Q as Q.
  split; [intros a; now apply survives_iff|].
  split; [intros l; now apply filterAnswers_spec|].
  split; [now rewrite Q|].
  intros qs1 q qs2 E H. rewrite <- Q, E, !filter_app. simpl.
  now rewrite (hasSurvivor_false _ q H).
Qed.

(** C6, amended: the questions that are kept are the authored
    questions with an answer option that survives, one for one and in
    their order; the answer options of each are the authored ones that
    survive, one for one and in their order. Each carries its
    sanitized personality string, and for its text the placeholder
    U+3164, which is not empty, when the authored text is missing
    ([undefined] or [null]), and the authored text unchanged, the empty
    string too, when it is not. *)
Theorem sanitizeParameters_missing_text (params : RawParams) (out : Params) :
  sanitizeParameters params = Ok out ->
  placeholder <> []
  /\ Forall2
       (fun q q' =>
          q_rest q' = q_rest q
          /\ Forall2
               (fun a a' =>
                  personality a'
                  = JsStr (sanitizedString (personalities out) a)
                  /\ (isMissing (text a) = true ->
                      text a' = JsStr placeholder)
                  /\ (isMissing (text a) = false -> text a' = text a))
               (filter (survives (personalities out)) (answers q))
               (answers q'))
       (filter (hasSurvivor (personalities out)) (questionsGroup params))
       (questions out).
Proof.
  intros R. split; [discriminate|].
  rewrite (sanitizeParameters_questions _ _ R).
  apply Forall2_map_r. intros q _. split; [reflexivity|].
  cbn [keptQuestion answers]. apply Forall2_map_r. intros a _.
  cbn [keptAnswer personality text]. split; [reflexivity|].
  split; now intros ->.
Qed.

(** ** Further properties of the sanitizer *)

Lemma addPersonality_throws (acc : list Personality) (p : Personality) :
  nameThrows p -> addPersonality acc p = TypeError.
Proof.
  unfold addPersonality, nameThrows.
  destruct p as [[| |[|]|n|s] k]; simpl; intros [T S];
    try discriminate; auto.
  now rewrite T.
Qed.

(** X1: the personality pass throws when the name of some record is
    not skipped and has no [trim] method: a number other than 0, or
    [true]. *)
Theorem sanitizePersonalities_throws (raw : list Personality) :
  Exists nameThrows raw -> sanitizePersonalities raw = TypeError.
Proof.
  unfold sanitizePersonalities. generalize (@nil Personality) as acc.
  induction raw as [|p raw IH]; intros acc E; simpl.
  - inversion E.
  - inversion E as [? ? T|? ? T]; subst.
    + now rewrite (addPersonality_throws acc p T).
    + destruct (addPersonality acc p); simpl; auto.
Qed.

(** ** What [sanitizeParameters] hands on *)

(** X4: every question that [sanitizeParameters] keeps has an answer
    option, and every answer option that is kept has a personality
    string that is not empty and a text that is neither [undefined] nor
    [null]. *)
Theorem sanitizeParameters_kept_shape (params : RawParams) (out : Params) :
  sanitizeParameters params = Ok out ->
  Forall (fun q =>
            answers q <> []
            /\ Forall (fun a =>
                         (exists s, personality a = JsStr s /\ s <> [])
                         /\ isMissing (text a) = false)
                 (answers q))
    (questions out).
Proof.
  intros R. rewrite (sanitizeParameters_questions _ _ R).
  apply Forall_forall. intros q' I. apply in_map_iff in I.
  destruct I as (q & <- & I). apply filter_In in I. destruct I as (_ & H).
  unfold keptQuestion. cbn [answers]. split.
  - unfold hasSurvivor in H. apply existsb_exists in H.
    destruct H as (a & Ia & Sa). intros E.
    assert (J : In (keptAnswer (personalities out) a)
                  (map (keptAnswer (personalities out))
                     (filter (survives (personalities out)) (answers q)))).
    { apply in_map, filter_In. auto. }
    rewrite E in J. destruct J.
  - apply Forall_forall. intros a' Ia. apply in_map_iff in Ia.
    destruct Ia as (a & <- & Ia). apply filter_In in Ia.
    destruct Ia as (_ & Sa). unfold keptAnswer. cbn [personality text].
    split.
    + eexists. split; [reflexivity|]. unfold survives in Sa.
      apply negb_true_iff, str_eqb_neq in Sa. exact Sa.
    + destruct (text a); reflexivity.
Qed.

(** X5: when no personality is kept, no question is kept. *)
Theorem sanitizeParameters_no_personality (params : RawParams) (out : Params) :
  sanitizeParameters params = Ok out ->
  personalities out = [] -> questions out = [].
Proof.
  intros R E. rewrite (sanitizeParameters_questions _ _ R), E.
  rewrite filter_none; auto. intros q _. unfold hasSurvivor.
  destruct (existsb (survives []) (answers q)) eqn:X; auto.
  apply existsb_exists in X. destruct X as (a & _ & Sa).
  apply (survives_iff [] (Forall_nil _)) in Sa.
  destruct Sa as (s & _ & C). now rewrite canonicalTokens_none in C.
Qed.

(** ** Sanitizing what is sanitized *)

(** X6: the personality pass, run on what it has left, keeps the
    personalities whose name is not the empty string, as they are, and
    skips the one whose name is: a name of white space only, trimmed to
    the empty string by the first run, is a missing name for the second. *)
Theorem sanitizePersonalities_again (raw out : list Personality) :
  sanitizePersonalities raw = Ok out ->
  sanitizePersonalities out = Ok (filter hasName out).
Proof.
  intros R. apply sanitizePersonalities_rerun. now exists raw.
Qed.

(** ** White space in a token *)

(** X9: white space before a token does not count: the token is
    sanitized as it is without it. *)
Theorem sanitizePersonalityOption_leading_space
        (ps : list Personality) (w t : jsstring) :
  forallb isWhiteSpace w = true ->
  sanitizePersonalityOption ps (w ++ t) = sanitizePersonalityOption ps t.
Proof.
  intros W. unfold sanitizePersonalityOption.
  destruct (splitPersonalityOption_cases t)
    as [(pre & suf & -> & S & ->)|(M & ->)].
  - rewrite app_assoc, splitPersonalityOption_score by assumption.
    now rewrite trim_space_app.
  - rewrite splitPersonalityOption_plain
      by now rewrite matchScore_space_app.
    now rewrite trim_space_app.
Qed.

(** X10: white space after a token makes it a name as a whole, a score
    that it ends in included: over sanitized personalities the token
    "brave=2 " is looked up as the name "brave=2", given the score 1
    when a personality has that name, and dropped when none has. *)
Theorem sanitizePersonalityOption_trailing_space
        (ps : list Personality) (t w : jsstring) :
  Sanitized ps ->
  w <> [] -> forallb isWhiteSpace w = true ->
  (Matches ps (toLowerCase (trim t)) ->
   sanitizePersonalityOption ps (t ++ w)
   = Ok (Some (toLowerCase (trim t) ++ u "=1")))
  /\ (~ Matches ps (toLowerCase (trim t)) ->
      sanitizePersonalityOption ps (t ++ w) = Ok None).
Proof.
  intros S N W. apply Sanitized_StringNames in S.
  pose proof (splitPersonalityOption_plain (t ++ w)
                (matchScore_app_space t w N W)) as E.
  destruct (sanitizePersonalityOption_spec ps S _ _ _ E) as (A & B).
  rewrite (trim_app_space t w W) in A, B. split; assumption.
Qed.

(** ** More personalities *)

(** X11: personalities added take nothing away: when every name kept
    by one run of [sanitizeParameters] is kept by another run on the same
    questions, every answer option and every question the first run
    keeps, the second keeps. *)
Theorem sanitizeParameters_more_personalities
        (p1 p2 : RawParams) (o1 o2 : Params) :
  sanitizeParameters p1 = Ok o1 ->
  sanitizeParameters p2 = Ok o2 ->
  questionsGroup p1 = questionsGroup p2 ->
  incl (map name (personalities o1)) (map name (personalities o2)) ->
  (forall a, survives (personalities o1) a = true ->
             survives (personalities o2) a = true)
  /\ (forall q, In q (questionsGroup p1) ->
                In (keptQuestion (personalities o1) q) (questions o1) ->
                In (keptQuestion (personalities o2) q) (questions o2)).
Proof.
  intros R1 R2 Q I.
  pose proof (sanitizeParameters_StringNames _ _ R1) as S1.
  pose proof (sanitizeParameters_StringNames _ _ R2) as S2.
  split.
  - intros a. now apply survives_more.
  - intros q Iq K. rewrite (sanitizeParameters_questions _ _ R2), <- Q.
    apply in_map, filter_In. split; auto.
    apply (hasSurvivor_more (personalities o1)); auto.
    apply keptQuestion_hasSurvivor.
    rewrite (sanitizeParameters_questions _ _ R1) in K.
    apply in_map_iff in K. destruct K as (q0 & E & I0).
    apply filter_In in I0. destruct I0 as (_ & H0). rewrite <- E.
    cbn [keptQuestion answers]. unfold hasSurvivor in H0.
    apply existsb_exists in H0. destruct H0 as (a & Ia & Va). intros N.
    assert (J : In (keptAnswer (personalities o1) a)
                  (map (keptAnswer (personalities o1))
                     (filter (survives (personalities o1)) (answers q0)))).
    { apply in_map, filter_In. auto. }
    rewrite N in J. destruct J.
Qed.

(** ** Personality strings put together *)

(** X12: over sanitized personalities, two personality strings put
    together with a comma are sanitized to their sanitized strings put
    together, with a comma when neither is empty. *)
Theorem sanitizeOptionPersonalities_concat
        (ps : list Personality) (s1 s2 o1 o2 : jsstring) :
  Sanitized ps ->
  sanitizeOptionPersonalities ps (JsStr s1) = Ok o1 ->
  sanitizeOptionPersonalities ps (JsStr s2) = Ok o2 ->
  sanitizeOptionPersonalities ps (JsStr (s1 ++ [comma] ++ s2))
  = Ok (joinSanitized o1 o2).
Proof.
  intros S R1 R2. apply Sanitized_StringNames in S.
  rewrite sanitizeOptionPersonalities_spec in * by assumption.
  injection R1 as <-. injection R2 as <-. f_equal.
  cbn [app]. rewrite split_app_sep, canonicalTokens_app.
  apply join_app; apply canonicalTokens_nonempty.
Qed.

(** ** What the sanitizer takes of lower-casing *)

Section Laws.

(** Lower-casing changes no lower-cased string. *)
Hypothesis toLowerCase_idem :
  forall s, toLowerCase (toLowerCase s) = toLowerCase s.

(** Lower-casing goes through trimming: white space has no case, and
    no character is lower-cased to white space. *)
Hypothesis toLowerCase_trim :
  forall s, trim (toLowerCase s) = toLowerCase (trim s).

(** Lower-casing makes no comma. *)
Hypothesis toLowerCase_comma :
  forall s, In comma (toLowerCase s) -> In comma s.

(** The empty string, and no other, is lower-cased to the empty
    string. *)
Hypothesis toLowerCase_empty :
  forall s, toLowerCase s = [] <-> s = [].

Lemma trim_lower_trim (s : jsstring) :
  toLowerCase (trim (toLowerCase (trim s))) = toLowerCase (trim s).
Proof. now rewrite toLowerCase_trim, trim_idem, toLowerCase_idem. Qed.

Lemma Matches_empty (ps : list Personality) :
  Matches ps [] <-> In (JsStr []) (map name ps).
Proof.
  split.
  - intros (p & s & I & E & L). apply (proj1 (toLowerCase_empty s)) in L.
    subst s.
    rewrite <- E. now apply in_map.
  - intros I. apply in_map_iff in I. destruct I as (p & E & I).
    exists p, []. repeat split; auto. now apply toLowerCase_empty.
Qed.

Lemma sanitizePersonalityOption_fixed (ps : list Personality) (t c : jsstring) :
  sanitizePersonalityOption ps t = Ok (Some c) ->
  sanitizePersonalityOption ps c = Ok (Some c).
Proof.
  intros H. apply sanitizePersonalityOption_shape in H.
  destruct H as (n0 & suf & _ & S & -> & V).
  unfold sanitizePersonalityOption.
  rewrite splitPersonalityOption_score by assumption.
  rewrite trim_lower_trim, V. reflexivity.
Qed.

Lemma sanitizePersonalityOption_no_comma (ps : list Personality) (t c : jsstring) :
  ~ In comma t ->
  sanitizePersonalityOption ps t = Ok (Some c) -> ~ In comma c.
Proof.
  intros T H. apply sanitizePersonalityOption_shape in H.
  destruct H as (n0 & suf & I & S & -> & _). intros J.
  apply in_app_or in J. destruct J as [J|[J|J]].
  - apply toLowerCase_comma, trim_incl in J. auto.
  - discriminate.
  - now apply signedDigits_no_comma in J.
Qed.

Lemma canonicalTokens_no_comma (ps : list Personality) (s : jsstring) :
  Forall (fun c => ~ In comma c) (canonicalTokens ps (split comma s)).
Proof.
  apply Forall_forall. intros c I. apply canonicalTokens_In in I.
  destruct I as (t & I & E).
  eapply sanitizePersonalityOption_no_comma; eauto.
  pose proof (split_no_sep comma s) as F. rewrite Forall_forall in F. auto.
Qed.

Lemma canonicalTokens_fixed (ps : list Personality) (ts : list jsstring) :
  canonicalTokens ps (canonicalTokens ps ts) = canonicalTokens ps ts.
Proof.
  induction ts as [|t ts IH]; simpl; auto.
  destruct (sanitizePersonalityOption ps t) as [[c|]|] eqn:E; simpl; auto.
  apply sanitizePersonalityOption_fixed in E. rewrite E. simpl.
  now f_equal.
Qed.

Lemma lookup_no_comma (t n0 : jsstring) (score : JsVal) :
  ~ In comma t -> splitPersonalityOption t = (n0, score) ->
  ~ In comma (toLowerCase (trim n0)).
Proof.
  intros T E I. apply toLowerCase_comma, trim_incl in I.
  apply T. eapply splitPersonalityOption_incl; eauto.
Qed.

(** ** The specification's claims: sanitizing a sanitized string *)

(** C10, amended: over sanitized personalities, sanitizing a sanitized
    string gives the same string when the string is not empty or no
    personality has the empty name; when the string is empty and a
    personality has the empty name, it gives "=1". Of lower-casing this
    takes the four laws above. *)
Theorem sanitizeOptionPersonalities_fixed_point
        (ps : list Personality) (s out : jsstring) :
  Sanitized ps ->
  sanitizeOptionPersonalities ps (JsStr s) = Ok out ->
  (out <> [] \/ ~ In (JsStr []) (map name ps) ->
   sanitizeOptionPersonalities ps (JsStr out) = Ok out)
  /\ (out = [] -> In (JsStr []) (map name ps) ->
      sanitizeOptionPersonalities ps (JsStr out) = Ok (u "=1")).
Proof.
  intros S R. apply Sanitized_StringNames in S.
  rewrite sanitizeOptionPersonalities_spec in R by assumption.
  injection R as R.
  assert (E : forall o,
             sanitizePersonalityOption ps [] = Ok o ->
             sanitizeOptionPersonalities ps (JsStr [])
             = Ok (join [comma] (dropNull [o]))).
  { intros o Eo. simpl. now rewrite Eo. }
  destruct (sanitizePersonalityOption_spec ps S [] [] (JsNum 1) eq_refl)
    as (A & B).
  assert (L : toLowerCase (trim []) = []) by now apply toLowerCase_empty.
  rewrite L in A, B.
  split.
  - intros H. destruct (canonicalTokens ps (split comma s)) as [|c cs] eqn:C.
    + simpl in R. subst out. destruct H as [H|H]; [congruence|].
      rewrite (E None); auto. apply B. now rewrite Matches_empty.
    + rewrite sanitizeOptionPersonalities_spec by assumption.
      rewrite <- R at 1. rewrite split_join.
      * rewrite <- C, canonicalTokens_fixed, C. now rewrite R.
      * discriminate.
      * rewrite <- C. apply canonicalTokens_no_comma.
  - intros -> I. rewrite (E (Some (u "=1"))); auto.
    apply A. now rewrite Matches_empty.
Qed.

(** ** The tokens of a sanitized string *)

(** X2: every token of a sanitized personality string that is not
    empty is a name, [=] and a signed integer; the name is a trimmed
    string lower-cased, and is the lower-cased name of a personality.
    Of lower-casing this takes that it makes no comma. *)
Theorem sanitizeOptionPersonalities_tokens
        (ps : list Personality) (s out : jsstring) :
  Sanitized ps ->
  sanitizeOptionPersonalities ps (JsStr s) = Ok out ->
  out <> [] ->
  Forall (fun c => exists n0 score,
              c = toLowerCase (trim n0) ++ equals :: score
              /\ signedDigits score = true
              /\ Matches ps (toLowerCase (trim n0)))
    (split comma out).
Proof.
  intros S R N. apply Sanitized_StringNames in S.
  rewrite sanitizeOptionPersonalities_spec in R by assumption.
  injection R as R. subst out.
  rewrite split_join.
  - apply Forall_forall. intros c I. apply canonicalTokens_In in I.
    destruct I as (t & _ & E). apply sanitizePersonalityOption_shape in E.
    destruct E as (n0 & suf & _ & D & -> & V).
    exists n0, suf.
    split; [reflexivity|]. split; [exact D|].
    destruct (isPersonalityNameValid_spec ps (toLowerCase (trim n0)) S)
      as (b & Eb & M).
    apply M. congruence.
  - intros C. apply N. now rewrite C.
  - apply canonicalTokens_no_comma.
Qed.

(** ** Sanitizing sanitized parameters *)

Section Again.

Variable ps : list Personality.
Hypothesis names : StringNames ps.

Lemma sanitizedString_string (a : Answer) (s : jsstring) :
  personality a = JsStr s ->
  sanitizedString ps a = join [comma] (canonicalTokens ps (split comma s)).
Proof.
  intros E. unfold sanitizedString.
  now rewrite E, sanitizeOptionPersonalities_spec.
Qed.

(** A sanitized string that is not empty is sanitized to itself. *)
Lemma sanitizedString_kept (a : Answer) :
  survives ps a = true ->
  sanitizedString ps (keptAnswer ps a) = sanitizedString ps a.
Proof.
  intros V. apply (survives_iff ps names) in V. destruct V as (s & E & C).
  rewrite (sanitizedString_string (keptAnswer ps a) (sanitizedString ps a))
    by reflexivity.
  rewrite (sanitizedString_string a s E).
  rewrite split_join; auto using canonicalTokens_no_comma.
  now rewrite canonicalTokens_fixed.
Qed.

Lemma keptAnswer_kept (a : Answer) :
  survives ps a = true ->
  survives ps (keptAnswer ps a) = true
  /\ keptAnswer ps (keptAnswer ps a) = keptAnswer ps a.
Proof.
  intros V. pose proof (sanitizedString_kept a V) as E. split.
  - unfold survives in *. now rewrite E.
  - unfold keptAnswer at 1. rewrite E. unfold keptAnswer. cbn [text].
    f_equal. now destruct (text a).
Qed.

Lemma keptQuestion_kept (q : Question) :
  hasSurvivor ps q = true ->
  hasSurvivor ps (keptQuestion ps q) = true
  /\ keptQuestion ps (keptQuestion ps q) = keptQuestion ps q.
Proof.
  intros H.
  assert (K : forall a', In a' (answers (keptQuestion ps q)) ->
                         survives ps a' = true /\ keptAnswer ps a' = a').
  { intros a' I. cbn [keptQuestion answers] in I. apply in_map_iff in I.
    destruct I as (a & <- & I). apply filter_In in I.
    now apply keptAnswer_kept. }
  split.
  - unfold hasSurvivor in *. apply existsb_exists in H.
    destruct H as (a & I & V). apply existsb_exists.
    exists (keptAnswer ps a). split; [|now apply keptAnswer_kept].
    cbn [keptQuestion answers]. apply in_map, filter_In. auto.
  - unfold keptQuestion at 1.
    rewrite filter_all by (intros; now apply K).
    rewrite map_fixed by (intros; now apply K). reflexivity.
Qed.

Lemma sanitizeQuestions_kept (qs : list Question) :
  sanitizeQuestions ps (map (keptQuestion ps) (filter (hasSurvivor ps) qs))
  = Ok (map (keptQuestion ps) (filter (hasSurvivor ps) qs)).
Proof.
  rewrite sanitizeQuestions_spec by assumption. f_equal.
  assert (K : forall q', In q' (map (keptQuestion ps)
                                  (filter (hasSurvivor ps) qs)) ->
                         hasSurvivor ps q' = true /\ keptQuestion ps q' = q').
  { intros q' I. apply in_map_iff in I. destruct I as (q & <- & I).
    apply filter_In in I. now apply keptQuestion_kept. }
  rewrite filter_all by (intros; now apply K).
  apply map_fixed. intros; now apply K.
Qed.

End Again.

(** X7: [sanitizeParameters] run on what it has returned returns the
    same, when no personality that is kept has the empty string for its
    name. Of lower-casing this takes that it changes no lower-cased
    string, that it goes through trimming and that it makes no
    comma. *)
Theorem sanitizeParameters_again (params : RawParams) (out : Params) :
  sanitizeParameters params = Ok out ->
  ~ In (JsStr []) (map name (personalities out)) ->
  sanitizeParameters (asRaw out) = Ok out.
Proof.
  intros R N. pose proof (sanitizeParameters_StringNames _ _ R) as S.
  pose proof (sanitizeParameters_questions _ _ R) as Q.
  apply sanitizeParameters_inv in R. destruct R as (P & _).
  unfold sanitizeParameters, asRaw. cbn [personalitiesGroup questionsGroup].
  rewrite sanitizePersonalities_rerun
    by now exists (personalitiesGroup params).
  rewrite filter_all.
  - cbn [bind]. rewrite Q at 1.
    rewrite sanitizeQuestions_kept by assumption.
    cbn [bind]. rewrite <- Q. now destruct out.
  - intros p I. unfold hasName. apply negb_true_iff.
    destruct (strictEquals (name p) (JsStr [])) eqn:E; auto.
    apply strictEquals_eq in E. exfalso. apply N. rewrite <- E.
    now apply in_map.
Qed.

(** ** Personalities with the same names *)

Section SameNames.

Variables ps ps2 : list Personality.
Hypothesis names : StringNames ps.
Hypothesis names2 : StringNames ps2.
Hypothesis same :
  forall n, ~ In comma n -> (Matches ps n <-> Matches ps2 n).

Lemma sanitizePersonalityOption_same (t : jsstring) :
  ~ In comma t ->
  sanitizePersonalityOption ps t = sanitizePersonalityOption ps2 t.
Proof.
  intros T. destruct (splitPersonalityOption t) as (n0, score) eqn:E.
  pose proof (lookup_no_comma t n0 score T E) as C.
  destruct (sanitizePersonalityOption_spec ps names t n0 score E) as (A & B).
  destruct (sanitizePersonalityOption_spec ps2 names2 t n0 score E)
    as (A2 & B2).
  destruct (isPersonalityNameValid_spec ps (toLowerCase (trim n0)) names)
    as ([|] & _ & M).
  - assert (H : Matches ps (toLowerCase (trim n0))) by now apply M.
    rewrite (A H). symmetry. now apply A2, same.
  - assert (H : ~ Matches ps (toLowerCase (trim n0))).
    { intros H. apply M in H. discriminate. }
    rewrite (B H). symmetry. apply B2. intros H2. now apply H, same.
Qed.

Lemma sanitizedString_same (a : Answer) :
  sanitizedString ps a = sanitizedString ps2 a.
Proof.
  unfold sanitizedString. destruct (personality a) as [| | | |s]; auto.
  cbn [sanitizeOptionPersonalities].
  rewrite (mapM_ext_in _ (sanitizePersonalityOption ps2)); auto.
  intros t I. apply sanitizePersonalityOption_same.
  pose proof (split_no_sep comma s) as F. rewrite Forall_forall in F. auto.
Qed.

Lemma keptQuestions_same (qs : list Question) :
  map (keptQuestion ps) (filter (hasSurvivor ps) qs)
  = map (keptQuestion ps2) (filter (hasSurvivor ps2) qs).
Proof.
  assert (V : forall a, survives ps a = survives ps2 a).
  { intros a. unfold survives. now rewrite sanitizedString_same. }
  assert (K : forall a, keptAnswer ps a = keptAnswer ps2 a).
  { intros a. unfold keptAnswer. now rewrite sanitizedString_same. }
  rewrite (filter_ext (hasSurvivor ps) (hasSurvivor ps2)).
  - apply map_ext. intros q. unfold keptQuestion.
    now rewrite (filter_ext _ _ V), (map_ext _ _ K).
  - intros q. unfold hasSurvivor. clear - V.
    induction (answers q) as [|a l IH]; simpl; auto. now rewrite V, IH.
Qed.

End SameNames.

(** X13: the questions that are kept depend on the personalities by
    their trimmed, lower-cased names only, and by those without a comma:
    two runs of [sanitizeParameters] on the same questions, whose
    personalities have the same such names, keep the same questions,
    with the same answer options. A personality whose name holds a
    comma is the personality of no token. Of lower-casing this takes
    that it makes no comma. *)
Theorem sanitizeParameters_names_only (p1 p2 : RawParams) (o1 o2 : Params) :
  sanitizeParameters p1 = Ok o1 ->
  sanitizeParameters p2 = Ok o2 ->
  questionsGroup p1 = questionsGroup p2 ->
  (forall n, ~ In comma n ->
             (In (JsStr n) (map matchingName (personalities o1))
              <-> In (JsStr n) (map matchingName (personalities o2)))) ->
  questions o1 = questions o2.
Proof.
  intros R1 R2 Q I.
  rewrite (sanitizeParameters_questions _ _ R1).
  rewrite (sanitizeParameters_questions _ _ R2), <- Q.
  pose proof (sanitizeParameters_StringNames _ _ R1) as S1.
  pose proof (sanitizeParameters_StringNames _ _ R2) as S2.
  apply keptQuestions_same; auto.
  apply sanitizeParameters_inv in R1. destruct R1 as (P1 & _).
  apply sanitizeParameters_inv in R2. destruct R2 as (P2 & _).
  intros n C. rewrite !Matches_matchingName.
  - now apply I.
  - now exists (personalitiesGroup p2).
  - now exists (personalitiesGroup p1).
Qed.

End Laws.

(** ** The specification's claims: tokens that come again *)

(** C7: the tokens of one answer are not deduplicated: the sanitized
    string is the canonical forms of the valid tokens, one for each
    occurrence of a valid token and in the order of the tokens, with
    commas between them. When lower-casing makes no comma, these
    canonical forms are the tokens of the sanitized string. *)
Theorem sanitizeOptionPersonalities_keeps_repeats
        (ps : list Personality) (s : jsstring) :
  Sanitized ps ->
  exists out,
    sanitizeOptionPersonalities ps (JsStr s) = Ok out
    /\ out = join [comma] (canonicalTokens ps (split comma s))
    /\ (forall t c,
          sanitizePersonalityOption ps t = Ok (Some c) ->
          (count_occ str_dec (split comma s) t
           <= count_occ str_dec (canonicalTokens ps (split comma s)) c)%nat)
    /\ ((forall x, In comma (toLowerCase x) -> In comma x) ->
        (canonicalTokens ps (split comma s) <> [] ->
         split comma out = canonicalTokens ps (split comma s))
        /\ (forall t c,
              sanitizePersonalityOption ps t = Ok (Some c) ->
              (count_occ str_dec (split comma s) t
               <= count_occ str_dec (split comma out) c)%nat)).
Proof.
  intros S. apply Sanitized_StringNames in S.
  exists (join [comma] (canonicalTokens ps (split comma s))).
  split; [now apply sanitizeOptionPersonalities_spec|].
  split; [reflexivity|].
  split; [intros t c E; now apply canonicalTokens_count|].
  intros L.
  assert (J : canonicalTokens ps (split comma s) <> [] ->
              split comma (join [comma] (canonicalTokens ps (split comma s)))
              = canonicalTokens ps (split comma s)).
  { intros N. apply split_join; auto. now apply canonicalTokens_no_comma. }
  split; [exact J|].
  intros t c E.
  destruct (count_occ str_dec (split comma s) t) as [|k] eqn:K; [lia|].
  rewrite <- K, J.
  - now apply canonicalTokens_count.
  - assert (I : In t (split comma s)).
    { apply (count_occ_In str_dec). lia. }
    intros N. assert (I' : In c (canonicalTokens ps (split comma s))).
    { apply canonicalTokens_In. eauto. }
    rewrite N in I'. destruct I'.
Qed.

End Sanitizer.

(** ** Lower-casing of Latin-1 strings

    [lowerLatin1] has the four properties that are taken of
    lower-casing. *)

Lemma lowerUnit_idem (c : N) : lowerUnit (lowerUnit c) = lowerUnit c.
Proof. unfold lowerUnit. units. Qed.

Lemma lowerUnit_space (c : N) : isWhiteSpace (lowerUnit c) = isWhiteSpace c.
Proof. unfold lowerUnit, isWhiteSpace. units. Qed.

Lemma lowerUnit_comma (c : N) : lowerUnit c = comma -> c = comma.
Proof. unfold lowerUnit, comma. units. Qed.

Lemma lowerLatin1_idem (s : jsstring) :
  lowerLatin1 (lowerLatin1 s) = lowerLatin1 s.
Proof.
  unfold lowerLatin1. rewrite map_map. apply map_ext. apply lowerUnit_idem.
Qed.

Lemma lowerLatin1_trimStart (s : jsstring) :
  trimStart (lowerLatin1 s) = lowerLatin1 (trimStart s).
Proof.
  induction s as [|c s IH]; simpl; auto.
  rewrite lowerUnit_space. destruct (isWhiteSpace c); auto.
Qed.

Lemma lowerLatin1_trim (s : jsstring) :
  trim (lowerLatin1 s) = lowerLatin1 (trim s).
Proof.
  unfold trim, trimEnd. rewrite lowerLatin1_trimStart.
  unfold lowerLatin1 at 1. rewrite <- map_rev.
  fold (lowerLatin1 (rev (trimStart s))).
  rewrite lowerLatin1_trimStart. unfold lowerLatin1. now rewrite map_rev.
Qed.

Lemma lowerLatin1_comma (s : jsstring) :
  In comma (lowerLatin1 s) -> In comma s.
Proof.
  intros J. unfold lowerLatin1 in J. apply in_map_iff in J.
  destruct J as (x & L & J). apply lowerUnit_comma in L. now subst x.
Qed.

Lemma lowerLatin1_empty (s : jsstring) : lowerLatin1 s = [] <-> s = [].
Proof. split; [now destruct s|now intros ->]. Qed.

(** ** Tactics for written-out parameters *)

(** Names written out are well-formed. *)
Ltac wellFormed :=
  repeat (apply Forall_cons;
          [ unfold nameWellFormed; simpl;
            first [ left; reflexivity
                  | right; left; reflexivity
                  | right; right; eexists; reflexivity ] | ]);
  apply Forall_nil.

(** Every way to cut a string that is written out at one of its [=]. *)
Ltac cuts E :=
  let pre := fresh "pre" in
  intros pre ? E; cbv in E;
  repeat (destruct pre as [|? pre]; simpl in E;
          [ try discriminate E; try (injection E as <-; reflexivity)
          | try discriminate E; injection E as <- E ]);
  try (destruct pre; discriminate E).

(** ** Runs on small inputs *)

Example run_brave_2 :
  sanitizePersonalityOption lowerLatin1 brave (u "brave=2") = Ok (Some (u "brave=2")).
Proof. reflexivity. Qed.

Example run_Brave :
  sanitizePersonalityOption lowerLatin1 brave (u "Brave") = Ok (Some (u "brave=1")).
Proof. reflexivity. Qed.

Example run_unknown :
  sanitizePersonalityOption lowerLatin1 brave (u "unknown=3") = Ok None.
Proof. reflexivity. Qed.

Example run_option_list :
  sanitizeOptionPersonalities lowerLatin1 brave (JsStr (u " Brave =-2,kind=1,brave,brave=x"))
  = Ok (u "brave=-2,brave=1").
Proof. reflexivity. Qed.

Example run_personalities :
  sanitizePersonalities
    [mkPersonality (JsStr (u " Brave ")) 0; mkPersonality (JsStr (u "")) 1;
     mkPersonality JsUndefined 2; mkPersonality (JsStr (u "Brave")) 3;
     mkPersonality (JsStr (u "brave")) 4; mkPersonality (JsStr (u "  ")) 5]
  = Ok [mkPersonality (JsStr (u "Brave")) 0; mkPersonality (JsStr (u "brave")) 4;
        mkPersonality (JsStr (u "")) 5].
Proof. reflexivity. Qed.

Example run_personalities_throw :
  sanitizePersonalities [mkPersonality (JsNum 5) 0] = TypeError.
Proof. reflexivity. Qed.

(** ** The specification's claims: the lookup of a token *)

(** C3: over sanitized personalities, and whatever lower-casing is, a
    token is answered with [null] exactly when its name, trimmed and
    lower-cased, is the lower-cased name of no personality; any other
    token is answered with its lower-cased name, [=] and its score.
    With the one personality "brave": "brave=2" gives "brave=2",
    "Brave" gives "brave=1", and "unknown=3", which matches no
    personality, gives [null]. *)
Theorem sanitizePersonalityOption_null_iff_unknown :
  (forall toLowerCase ps value n0 score,
      Sanitized ps ->
      splitPersonalityOption value = (n0, score) ->
      (sanitizePersonalityOption toLowerCase ps value = Ok None
       <-> ~ Matches toLowerCase ps (toLowerCase (trim n0)))
      /\ (Matches toLowerCase ps (toLowerCase (trim n0)) ->
          sanitizePersonalityOption toLowerCase ps value
          = Ok (Some (toLowerCase (trim n0) ++ [equals] ++ toString score))))
  /\ Sanitized brave
  /\ sanitizePersonalityOption lowerLatin1 brave (u "brave=2")
     = Ok (Some (u "brave=2"))
  /\ sanitizePersonalityOption lowerLatin1 brave (u "Brave")
     = Ok (Some (u "brave=1"))
  /\ sanitizePersonalityOption lowerLatin1 brave (u "unknown=3") = Ok None.
Proof.
  split.
  - intros toLowerCase ps value n0 score S E.
    apply Sanitized_StringNames in S.
    destruct (sanitizePersonalityOption_spec toLowerCase ps S value n0 score E)
      as (A & B).
    split; [split|]; auto.
    intros N M. rewrite (A M) in N. discriminate.
  - split; [now exists brave|]. repeat split.
Qed.

Lemma sanitizePersonalityOption_null_iff_unknown_witness :
  sanitizePersonalityOption lowerLatin1 brave (u " BRAVE =-3") = Ok (Some (u "brave=-3")).
Proof.
  destruct sanitizePersonalityOption_null_iff_unknown as (H & S & _).
  apply (proj2 (H lowerLatin1 brave (u " BRAVE =-3") (u " BRAVE ") (JsStr (u "-3"))
                  S eq_refl)).
  exists (mkPersonality (JsStr (u "brave")) 0), (u "brave").
  repeat split. now left.
Defined.

(** ** The claims on written-out parameters *)

Lemma sanitizePersonalities_first_occurrence_witness :
  Forall nameWellFormed authored
  /\ exists out,
      sanitizePersonalities authored = Ok out
      /\ out = [mkPersonality (JsStr (u "Brave")) 0;
                mkPersonality (JsStr (u "brave")) 4].
Proof.
  assert (W : Forall nameWellFormed authored).
  { unfold authored. wellFormed. }
  split; [exact W|].
  destruct (sanitizePersonalities_first_occurrence authored W)
    as (out & R & E & _).
  exists out. split; [exact R|]. rewrite E. reflexivity.
Defined.

Lemma sanitizePersonalities_blank_name_kept_witness :
  exists out,
    sanitizePersonalities
      [mkPersonality (JsStr (u "kind")) 0; mkPersonality (JsStr (u "  ")) 1;
       mkPersonality (JsStr (u " ")) 2] = Ok out
    /\ In (mkPersonality (JsStr []) 1) out.
Proof.
  apply (sanitizePersonalities_blank_name_kept
           [mkPersonality (JsStr (u "kind")) 0]
           [mkPersonality (JsStr (u " ")) 2]
           (mkPersonality (JsStr (u "  ")) 1) (u "  ")).
  - simpl. wellFormed.
  - reflexivity.
  - discriminate.
  - reflexivity.
  - intros x t [<-|[]] E _. injection E as <-. reflexivity.
Defined.

(** C5, refuted: "Brave" and "brave" are both kept. *)
Lemma namesUniqueIgnoringCase_fails : ~ namesUniqueIgnoringCase lowerLatin1.
Proof.
  intros H.
  specialize (H [mkPersonality (JsStr (u "Brave")) 0;
                 mkPersonality (JsStr (u "brave")) 1] _ eq_refl).
  inversion H as [|? ? X _]. apply X. left. reflexivity.
Qed.

Lemma sanitizePersonalities_names_unique_witness :
  NoDup (map name [mkPersonality (JsStr (u "Brave")) 0;
                   mkPersonality (JsStr (u "brave")) 4])
  /\ Forall (fun p => exists s, name p = JsStr s /\ trim s = s)
       [mkPersonality (JsStr (u "Brave")) 0;
        mkPersonality (JsStr (u "brave")) 4].
Proof.
  apply (sanitizePersonalities_names_unique authored). reflexivity.
Defined.

Lemma splitPersonalityOption_last_equals_witness :
  splitPersonalityOption (u "a=b=-12") = (u "a=b", JsStr (u "-12"))
  /\ splitPersonalityOption (u "brave=x1") = (u "brave=x1", JsNum 1).
Proof.
  split.
  - apply (proj1 (splitPersonalityOption_last_equals (u "a=b=-12"))
             (u "a=b") (u "-12")); reflexivity.
  - apply (proj2 (splitPersonalityOption_last_equals (u "brave=x1"))).
    cuts E.
Defined.

Lemma sanitizeOptionPersonalities_keeps_repeats_witness :
  exists out,
    sanitizeOptionPersonalities lowerLatin1 brave
      (JsStr (u "brave,x,Brave=2,brave")) = Ok out
    /\ out = u "brave=1,brave=2,brave=1"
    /\ split comma out = [u "brave=1"; u "brave=2"; u "brave=1"].
Proof.
  destruct (sanitizeOptionPersonalities_keeps_repeats
              lowerLatin1 brave (u "brave,x,Brave=2,brave"))
    as (out & R & J & _ & H).
  - now exists brave.
  - exists out. split; [exact R|]. split; [rewrite J; reflexivity|].
    apply (H lowerLatin1_comma). discriminate.
Defined.

Lemma sanitizeOptionPersonalities_never_throws_witness :
  exists out,
    sanitizeOptionPersonalities lowerLatin1 brave (JsNum 7) = Ok out
    /\ (isString (JsNum 7) = false ->
        out = []
        /\ forall t, filterAnswers lowerLatin1 brave
                       [{| text := t; personality := JsNum 7 |}] = Ok []).
Proof.
  apply (sanitizeOptionPersonalities_never_throws lowerLatin1 brave (JsNum 7)).
  now exists brave.
Defined.

(** C10, refuted: the authored name " " leaves a personality whose name
    is the empty string; "x" is then sanitized to the empty string, and
    the empty string to "=1". *)
Lemma sanitizeIdempotent_fails : ~ sanitizeIdempotent lowerLatin1.
Proof.
  intros H.
  specialize (H [mkPersonality (JsStr []) 0] (u "x") []).
  discriminate H.
  - now exists [mkPersonality (JsStr (u " ")) 0].
  - reflexivity.
Qed.

Lemma sanitizeOptionPersonalities_fixed_point_witness :
  sanitizeOptionPersonalities lowerLatin1 brave (JsStr (u "brave=-2,brave=1"))
  = Ok (u "brave=-2,brave=1").
Proof.
  apply (sanitizeOptionPersonalities_fixed_point lowerLatin1 lowerLatin1_idem lowerLatin1_trim
           lowerLatin1_comma lowerLatin1_empty
           brave (u " Brave =-2,kind=1,brave,brave=x") (u "brave=-2,brave=1")).
  - now exists brave.
  - reflexivity.
  - left. discriminate.
Defined.

Lemma sanitizeParameters_keeps_answered_witness :
  exists out,
    sanitizeParameters lowerLatin1 quiz = Ok out
    /\ questions out
       = [ {| answers := [mkAnswer (JsStr (u "Fight")) (JsStr (u "brave=2"));
                          mkAnswer (JsStr placeholder) (JsStr (u "brave=1"))];
              q_rest := 1 |} ].
Proof.
  destruct (sanitizeParameters_keeps_answered lowerLatin1 quiz)
    as (out & R & _ & _ & Q & _).
  - simpl. wellFormed.
  - exists out. split; [exact R|]. rewrite Q.
    assert (P : personalities out = brave).
    { apply sanitizeParameters_inv in R. destruct R as (P & _).
      simpl in P. now injection P. }
    rewrite P. reflexivity.
Defined.

(** C6, refuted: a text authored as the empty string stays empty. *)
Lemma keptTextsNonEmpty_fails : ~ keptTextsNonEmpty lowerLatin1.
Proof.
  intros H.
  specialize (H {| personalitiesGroup := brave;
                   questionsGroup :=
                     [ {| answers := [mkAnswer (JsStr []) (JsStr (u "brave"))];
                          q_rest := 0 |} ] |}
                _ eq_refl _ _ (or_introl eq_refl) (or_introl eq_refl)).
  destruct H as (s & E & N). simpl in E. injection E as <-. now apply N.
Qed.

Lemma sanitizeParameters_missing_text_witness :
  exists out,
    sanitizeParameters lowerLatin1 quiz = Ok out
    /\ placeholder <> []
    /\ Forall2
         (fun q q' =>
            q_rest q' = q_rest q
            /\ Forall2
                 (fun a a' =>
                    personality a'
                    = JsStr (sanitizedString lowerLatin1 (personalities out) a)
                    /\ (isMissing (text a) = true ->
                        text a' = JsStr placeholder)
                    /\ (isMissing (text a) = false -> text a' = text a))
                 (filter (survives lowerLatin1 (personalities out)) (answers q))
                 (answers q'))
         (filter (hasSurvivor lowerLatin1 (personalities out))
            (questionsGroup quiz))
         (questions out).
Proof.
  eexists. split; [reflexivity|].
  apply (sanitizeParameters_missing_text lowerLatin1 quiz). reflexivity.
Defined.

Lemma sanitizePersonalities_throws_witness :
  sanitizePersonalities
    [mkPersonality (JsStr (u "brave")) 0; mkPersonality (JsNum 5) 1;
     mkPersonality (JsStr (u "kind")) 2] = TypeError.
Proof.
  apply sanitizePersonalities_throws.
  apply Exists_cons_tl, Exists_cons_hd. split; reflexivity.
Defined.

Lemma sanitizeOptionPersonalities_tokens_witness :
  Forall (fun c => exists n0 score,
              c = lowerLatin1 (trim n0) ++ equals :: score
              /\ signedDigits score = true
              /\ Matches lowerLatin1 brave (lowerLatin1 (trim n0)))
    (split comma (u "brave=-2,brave=1")).
Proof.
  apply (sanitizeOptionPersonalities_tokens
           lowerLatin1 lowerLatin1_comma
           brave (u " Brave =-2,kind=1,brave,brave=x")).
  - now exists brave.
  - reflexivity.
  - discriminate.
Defined.

Lemma sanitizeParameters_kept_shape_witness :
  exists out,
    sanitizeParameters lowerLatin1 quiz = Ok out
    /\ Forall (fun q =>
                 answers q <> []
                 /\ Forall (fun a =>
                              (exists s, personality a = JsStr s /\ s <> [])
                              /\ isMissing (text a) = false)
                      (answers q))
         (questions out).
Proof.
  eexists. split; [reflexivity|].
  apply (sanitizeParameters_kept_shape lowerLatin1 quiz). reflexivity.
Defined.

Lemma sanitizeParameters_no_personality_witness :
  exists out,
    sanitizeParameters lowerLatin1
      {| personalitiesGroup := [mkPersonality JsUndefined 0;
                                mkPersonality (JsStr (u "")) 1];
         questionsGroup := questionsGroup quiz |} = Ok out
    /\ questions out = [].
Proof.
  eexists. split; [reflexivity|].
  apply (sanitizeParameters_no_personality lowerLatin1
           {| personalitiesGroup := [mkPersonality JsUndefined 0;
                                     mkPersonality (JsStr (u "")) 1];
              questionsGroup := questionsGroup quiz |});
    reflexivity.
Defined.

Lemma sanitizePersonalities_again_witness :
  sanitizePersonalities
    [mkPersonality (JsStr (u "kind")) 0; mkPersonality (JsStr []) 1]
  = Ok [mkPersonality (JsStr (u "kind")) 0].
Proof.
  apply (sanitizePersonalities_again
           [mkPersonality (JsStr (u "kind")) 0;
            mkPersonality (JsStr (u "  ")) 1;
            mkPersonality (JsStr (u " ")) 2]).
  reflexivity.
Defined.

Lemma sanitizeParameters_again_witness :
  exists out,
    sanitizeParameters lowerLatin1 quiz = Ok out /\ sanitizeParameters lowerLatin1 (asRaw out) = Ok out.
Proof.
  eexists. split; [reflexivity|].
  apply (sanitizeParameters_again lowerLatin1 lowerLatin1_idem lowerLatin1_trim
           lowerLatin1_comma quiz); [reflexivity|].
  simpl. intros [E|[]]. discriminate E.
Defined.

Lemma sanitizePersonalityOption_leading_space_witness :
  sanitizePersonalityOption lowerLatin1 brave (u "  brave=2")
  = sanitizePersonalityOption lowerLatin1 brave (u "brave=2").
Proof.
  apply (sanitizePersonalityOption_leading_space lowerLatin1 brave (u "  ") (u "brave=2")).
  reflexivity.
Defined.

Lemma sanitizePersonalityOption_trailing_space_witness :
  sanitizePersonalityOption lowerLatin1 brave (u "brave=2 ") = Ok None.
Proof.
  apply (sanitizePersonalityOption_trailing_space lowerLatin1 brave (u "brave=2") (u " ")).
  - now exists brave.
  - discriminate.
  - reflexivity.
  - intros (p & s & [<-|[]] & E & L). injection E as <-. discriminate L.
Defined.

Lemma sanitizeParameters_more_personalities_witness :
  exists o1 o2,
    sanitizeParameters lowerLatin1 quiz = Ok o1
    /\ sanitizeParameters lowerLatin1
         {| personalitiesGroup := brave ++ [mkPersonality (JsStr (u "Kind")) 1];
            questionsGroup := questionsGroup quiz |} = Ok o2
    /\ forall a, survives lowerLatin1 (personalities o1) a = true ->
                 survives lowerLatin1 (personalities o2) a = true.
Proof.
  do 2 eexists. split; [reflexivity|]. split; [reflexivity|].
  apply (sanitizeParameters_more_personalities lowerLatin1
           quiz
           {| personalitiesGroup :=
                brave ++ [mkPersonality (JsStr (u "Kind")) 1];
              questionsGroup := questionsGroup quiz |}
           _ _ eq_refl eq_refl eq_refl).
  intros n [<-|[]]. now left.
Defined.

Lemma sanitizeOptionPersonalities_concat_witness :
  sanitizeOptionPersonalities lowerLatin1 brave (JsStr (u "x,Brave=2" ++ [comma] ++ u "y"))
  = Ok (u "brave=2").
Proof.
  apply (sanitizeOptionPersonalities_concat lowerLatin1
           brave (u "x,Brave=2") (u "y") (u "brave=2") []).
  - now exists brave.
  - reflexivity.
  - reflexivity.
Defined.

Lemma sanitizeParameters_names_only_witness :
  exists o1 o2,
    sanitizeParameters lowerLatin1 quiz = Ok o1
    /\ sanitizeParameters lowerLatin1
         {| personalitiesGroup := [mkPersonality (JsStr (u " BRAVE ")) 7;
                                   mkPersonality (JsStr (u "kind,x")) 8];
            questionsGroup := questionsGroup quiz |} = Ok o2
    /\ questions o1 = questions o2.
Proof.
  do 2 eexists. split; [reflexivity|]. split; [reflexivity|].
  apply (sanitizeParameters_names_only lowerLatin1 lowerLatin1_comma
           quiz
           {| personalitiesGroup := [mkPersonality (JsStr (u " BRAVE ")) 7;
                                     mkPersonality (JsStr (u "kind,x")) 8];
              questionsGroup := questionsGroup quiz |}
           _ _ eq_refl eq_refl eq_refl).
  intros n C. simpl. split.
  - intros [E|[]]. left. exact E.
  - intros [E|[E|[]]]; [left; exact E|].
    exfalso. apply C. injection E as <-.
    do 4 right. left. reflexivity.
Defined.

(** ** The results of the XR variant: what [getResults] returns *)

Section ResultsLaws.

Variable V : Type.

Lemma getProp_setProp (o : object V) (k k' : string) (v : V) :
  getProp (setProp o k v) k'
  = if String.eqb k k' then Some v else getProp o k'.
Proof.
  induction o as [|(k0, v0) o IH]; simpl.
  - reflexivity.
  - destruct (String.eqb_spec k0 k) as [->|D]; simpl.
    + now destruct (String.eqb k k').
    + rewrite IH. destruct (String.eqb_spec k0 k') as [->|D']; auto.
      apply not_eq_sym in D. apply String.eqb_neq in D. now rewrite D.
Qed.

Lemma getProp_absent (o : object V) (k : string) :
  ~ In k (map fst o) -> getProp o k = None.
Proof.
  induction o as [|(k0, v0) o IH]; simpl; auto. intros N.
  destruct (String.eqb_spec k0 k) as [->|D]; [tauto|]. apply IH. tauto.
Qed.

Lemma getProp_spread (target source : object V) (k : string) :
  NoDup (map fst source) ->
  getProp (spread target source) k
  = match getProp source k with
    | Some v => Some v
    | None => getProp target k
    end.
Proof.
  unfold spread. revert target.
  induction source as [|(k0, v0) r IH]; intros target N; simpl; auto.
  inversion N as [|? ? X N']; subst. rewrite IH by assumption.
  rewrite getProp_setProp.
  destruct (String.eqb_spec k0 k) as [->|D]; auto.
  now rewrite (getProp_absent r k X).
Qed.

(** X14: [getResults] of the XR variant throws exactly when [extras]
    has no [metadata]. When it returns, every property of the content's
    results is in what it returns, with its value; the title is the
    title of the content's results when they have one, and the title of
    the metadata when they have none; there is no other property. *)
Theorem getResults_title (extras : Extras V)
        (contentResults : option (object V)) :
  (getResults extras contentResults = TypeError <-> metadata extras = None)
  /\ forall m content,
      metadata extras = Some m ->
      content = match contentResults with Some o => o | None => [] end ->
      NoDup (map fst content) ->
      exists o,
        getResults extras contentResults = Ok o
        /\ forall k,
            getProp o k
            = match getProp content k with
              | Some v => Some v
              | None => if String.eqb "title" k then Some (title m) else None
              end.
Proof.
  unfold getResults. split.
  - destruct (metadata extras); split; congruence.
  - intros m content -> -> N. eexists. split; [reflexivity|].
    intros k. now rewrite getProp_spread.
Qed.

End ResultsLaws.

Lemma getResults_title_witness :
  exists o,
    getResults (mkExtras (Some (mkMetadata 1%nat)))
      (Some [("winner"%string, 2%nat); ("title"%string, 3%nat)]) = Ok o
    /\ getProp o "title" = Some 3%nat
    /\ getProp o "winner" = Some 2%nat.
Proof.
  destruct (proj2 (getResults_title nat (mkExtras (Some (mkMetadata 1%nat)))
                     (Some [("winner"%string, 2%nat); ("title"%string, 3%nat)]))
              (mkMetadata 1%nat) _ eq_refl eq_refl)
    as (o & R & L).
  - repeat constructor; simpl; intuition discriminate.
  - exists o. split; [exact R|]. now rewrite !L.
Defined.
